(** * The visualisation module [viz/visualize.py]

    A shallow embedding of the grid reorderer ([reorder_img]), the heat-map
    builder ([Visualizer.generate_heat_maps]), the metric reader
    ([read_avg_kl_from_file]) and the orchestrator entry points
    ([Visualizer.all_latent_traversals], [Visualizer.samples]), followed by
    the properties of these functions.

    Python integers are [Z]; tensor extents, which torch keeps non-negative,
    are [nat].  A call that raises is a [Raise] value of the [result] type.
    Objects that the code mutates in place (tensors, the latent traverser)
    live in an explicit store. *)

From Stdlib Require Import ZArith QArith String Ascii Lia.
From stdpp Require Import base option list gmap strings pretty sorting.

Set Default Proof Using "Type".

(** ** Python exceptions and results *)

(** The exceptions the modelled code can raise. *)
Inductive exn : Type :=
  | IndexError          (* subscript out of range *)
  | ValueError          (* unpacking or conversion of a malformed value *)
  | RuntimeError        (* torch: shape mismatch, ambiguous truth value,
                           an operation the dtype does not allow *)
  | OSError             (* a file that cannot be opened *)
  | ZeroDivisionError.  (* division by zero *)

(** The name of the exception's class ([type(e).__name__]). *)
Definition exn_name (e : exn) : string :=
  match e with
  | IndexError => "IndexError"
  | ValueError => "ValueError"
  | RuntimeError => "RuntimeError"
  | OSError => "OSError"
  | ZeroDivisionError => "ZeroDivisionError"
  end.

Inductive result (A : Type) : Type :=
  | Ok (a : A)
  | Raise (e : exn).
Arguments Ok {A} a.
Arguments Raise {A} e.

#[global] Instance result_ret : MRet result := λ A a, Ok a.
#[global] Instance result_bind : MBind result := λ A B f m,
  match m with Ok a => f a | Raise e => Raise e end.
#[global] Instance result_fmap : FMap result := λ A B f m,
  match m with Ok a => Ok (f a) | Raise e => Raise e end.

Definition is_Ok {A} (r : result A) : Prop :=
  match r with Ok _ => True | Raise _ => False end.

(** ** Slices

    [slice_norm n i] is how Python places one bound of a slice with step 1 on
    a sequence of length [n]: a negative bound counts from the end, and
    the bound is then clamped to [0..n]. *)
Definition slice_norm (n i : Z) : Z :=
  if (i <? 0)%Z then Z.max (i + n) 0 else Z.min i n.

(** [slice_range n start stop] is the offset and the length of
    [s[start:stop]] in a sequence of length [n]. *)
Definition slice_range (n : nat) (start stop : Z) : nat * nat :=
  let s := slice_norm (Z.of_nat n) start in
  let e := slice_norm (Z.of_nat n) stop in
  (Z.to_nat s, Z.to_nat (e - s)).

(** The block that [dst[da:da+dl] = blk] stores: [blk] itself when the
    lengths agree, and otherwise (the caller has checked that [blk] has one
    element) that element broadcast to [dl] positions. *)
Definition broadcast {X} (dl sl : nat) (blk : list X) : list X :=
  if decide (sl = dl) then blk else mjoin (replicate dl blk).

(** [splice dst src da dl sb sl] is [dst] after
    [dst[da:da+dl] = src[sb:sb+sl]]. *)
Definition splice {X} (dst src : list X) (da dl sb sl : nat) : list X :=
  take da dst ++ broadcast dl sl (take sl (drop sb src)) ++ drop (da + dl) dst.

(** [in_slice n start stop i]: position [i] belongs to [s[start:stop]] for a
    sequence of length [n]. *)
Definition in_slice (n : nat) (start stop : Z) (i : nat) : Prop :=
  let '(s, l) := slice_range n start stop in s ≤ i < s + l.

(** The rows (columns) that block [idx] of a grid occupies:
    [idx*(padding+dim)+padding] and the [dim - 1] after it. *)
Definition in_block (dim padding : Z) (idx : Z) (i : nat) : Prop :=
  (idx * (padding + dim) + padding ≤ Z.of_nat i
     < idx * (padding + dim) + padding + dim)%Z.

(** The positions that the assignment for [new_idx] writes, on an axis of
    length [n]: the slice [start_pix_new : start_pix_new + dim]. *)
Definition dest_block (n : nat) (dim padding : Z) (new_idx : Z) (i : nat) : Prop :=
  let start_pix_new := (new_idx * (padding + dim) + padding)%Z in
  in_slice n start_pix_new (start_pix_new + dim) i.

(** The coordinate of a pixel along the reordered axis, and the cell extent
    along it. *)
Definition axis_coord (by_row : bool) (r k : nat) : nat :=
  if by_row then r else k.

Definition axis_dim (by_row : bool) (height width : Z) : Z :=
  if by_row then height else width.

(** ** Three-dimensional tensors and [reorder_img] *)

Section reorder.
Context {px : Type} (zero : px).

(** A tensor of shape (channels, rows, columns).  The extents are kept
    beside the data, so an empty extent loses no shape information. *)
Record Tensor3 : Type := mkTensor3 {
  t_chan : nat;
  t_rows : nat;
  t_cols : nat;
  t_data : list (list (list px))
}.

Definition size (t : Tensor3) : nat * nat * nat :=
  (t_chan t, t_rows t, t_cols t).

(** The data has the extents the tensor declares. *)
Definition well_shaped (t : Tensor3) : Prop :=
  length (t_data t) = t_chan t ∧
  Forall (λ ch, length ch = t_rows t ∧
                Forall (λ row : list px, length row = t_cols t) ch) (t_data t).

(** [t[c, r, k]], when the address is inside the tensor. *)
Definition pixel (t : Tensor3) (c r k : nat) : option px :=
  t_data t !! c ≫= λ ch, ch !! r ≫= λ row, row !! k.

(** [torch.zeros(shape)] as a value. *)
Definition zeros (shape : nat * nat * nat) : Tensor3 :=
  let '(c, h, w) := shape in
  mkTensor3 c h w (replicate c (replicate h (replicate w zero))).

#[global] Instance Tensor3_inhabited : Inhabited Tensor3 :=
  populate (zeros (0, 0, 0)%nat).

(** [dst[:, a:a+len, :] = src[:, b:b+len, :]] when [by_row], and
    [dst[:, :, a:a+len] = src[:, :, b:b+len]] otherwise, for two tensors of
    one shape.  torch raises unless the source block has the extent of the
    destination block or extent one along the sliced axis. *)
Definition setitem_block (by_row : bool) (dst src : Tensor3) (a b len : Z)
    : result Tensor3 :=
  let n := if by_row then t_rows dst else t_cols dst in
  let m := if by_row then t_rows src else t_cols src in
  let '(da, dl) := slice_range n a (a + len) in
  let '(sb, sl) := slice_range m b (b + len) in
  if decide (sl = dl ∨ sl = 1%nat) then
    Ok (mkTensor3 (t_chan dst) (t_rows dst) (t_cols dst)
          (zip_with
             (λ dch sch,
                if by_row then splice dch sch da dl sb sl
                else zip_with (λ drow srow, splice drow srow da dl sb sl) dch sch)
             (t_data dst) (t_data src)))
  else Raise RuntimeError.

(** The store of tensor objects, by reference. *)
Abbreviation store := (gmap nat Tensor3).

(** [torch.zeros(shape)]: a new object, at a reference not in use. *)
Definition torch_zeros (shape : nat * nat * nat) (σ : store) : nat * store :=
  let l := fresh (dom σ) in (l, <[l := zeros shape]> σ).

(** The loop [for new_idx, old_idx in enumerate(reorder)] of [reorder_img],
    from index [new_idx] on; [orig_img] and [reordered_img] are references
    into the store. *)
Fixpoint reorder_loop (orig_img reordered_img : nat) (by_row : bool)
    (height width padding : Z) (new_idx : Z) (reorder : list Z) (σ : store)
    : result unit * store :=
  match reorder with
  | [] => (Ok (), σ)
  | old_idx :: rest =>
      let dim := if by_row then height else width in
      let start_pix_new := (new_idx * (padding + dim) + padding)%Z in
      let start_pix_old := (old_idx * (padding + dim) + padding)%Z in
      match setitem_block by_row (σ !!! reordered_img) (σ !!! orig_img)
              start_pix_new start_pix_old dim with
      | Ok t' =>
          reorder_loop orig_img reordered_img by_row height width padding
            (new_idx + 1) rest (<[reordered_img := t']> σ)
      | Raise e => (Raise e, σ)
      end
  end.

(** [reorder_img(orig_img, reorder, by_row, img_size, padding)]. *)
Definition reorder_img (orig_img : nat) (reorder : list Z) (by_row : bool)
    (img_size : Z * Z * Z) (padding : Z) (σ : store) : result nat * store :=
  let '(reordered_img, σ1) := torch_zeros (size (σ !!! orig_img)) σ in
  let '(_, height, width) := img_size in
  match reorder_loop orig_img reordered_img by_row height width padding 0 reorder σ1 with
  | (Ok _, σ2) => (Ok reordered_img, σ2)
  | (Raise e, σ2) => (Raise e, σ2)
  end.

Definition axis_len (by_row : bool) (t : Tensor3) : nat :=
  if by_row then t_rows t else t_cols t.
End reorder.

Arguments Tensor3 px : clear implicits.

(** ** Loops that may raise *)

(** [for x in xs: s = body(x, s)], stopping at the first exception. *)
Fixpoint for_each {A S : Type} (body : A → S → result S) (xs : list A) (s : S)
    : result S :=
  match xs with
  | [] => Ok s
  | x :: rest =>
      match body x s with
      | Ok s' => for_each body rest s'
      | Raise e => Raise e
      end
  end.

(** ** [Visualizer.generate_heat_maps] *)

(** A two-dimensional float tensor, such as [means] of shape (N, L).  Finite
    floats are rationals; NaN and the infinities are not modelled. *)
Record Matrix : Type := mkMatrix {
  m_rows : nat;
  m_cols : nat;
  m_data : list (list Q)
}.

Definition matrix_shaped (m : Matrix) : Prop :=
  length (m_data m) = m_rows m
  ∧ Forall (λ row : list Q, length row = m_cols m) (m_data m).

(** [m[i, j]] for non-negative [i] and [j]. *)
Definition getitem2 (m : Matrix) (i j : nat) : result Q :=
  match m_data m !! i ≫= (λ row, row !! j) with
  | Some v => Ok v
  | None => Raise IndexError
  end.

(** The integer part of a float: the fractional part is dropped (rounding
    toward zero). *)
Definition integer_part (q : Q) : Z := Z.quot (Qnum q) (Z.pos (Qden q)).

(** Storing a float into an [int32] tensor converts it as C does.  When the
    integer part fits in 32 bits it is the value stored.  When it does not,
    C leaves the result open; the conversion instruction of x86-64
    processors, which torch's CPU kernel runs, yields its "integer
    indefinite" value, -2^31, and that is the value taken here. *)
Definition int32_of_float (q : Q) : Z :=
  let t := integer_part q in
  if ((- 2 ^ 31 <=? t) && (t <? 2 ^ 31))%Z then t else (- 2 ^ 31)%Z.

Definition fits_int32 (q : Q) : Prop :=
  (- 2 ^ 31 ≤ integer_part q < 2 ^ 31)%Z.

Definition means_fit_int32 (means : Matrix) : Prop :=
  Forall (Forall fits_int32) (m_data means).

(** The cells [(y_posn, x_posn)] in the order in which the two inner loops
    of [generate_heat_maps] visit them. *)
Definition cells (heat_map_height heat_map_width : nat) : list (nat * nat) :=
  y_posn ← seq 0 heat_map_width; (λ x_posn, (y_posn, x_posn)) <$> seq 0 heat_map_height.

(** The buffer [heat_map] of shape [1, 1, height, width]: its rows. *)
Abbreviation HeatMap := (list (list Z)).

(** [torch.zeros([1, 1, height, width], dtype=torch.int32)]. *)
Definition heat_map_zeros (heat_map_height heat_map_width : nat) : HeatMap :=
  replicate heat_map_height (replicate heat_map_width 0%Z).

(** [heat_map[0, 0, i, j]]. *)
Definition heat_map_at (heat_map : HeatMap) (i j : nat) : option Z :=
  heat_map !! i ≫= λ row, row !! j.

(** [heat_map[0, 0, i, j] = v], for an address inside the buffer. *)
Definition heat_map_set (heat_map : HeatMap) (i j : nat) (v : Z) : HeatMap :=
  alter (λ row, <[j := v]> row) i heat_map.

(** The two inner loops of [generate_heat_maps] for one [latent_dim]. *)
Definition fill_heat_map (means : Matrix) (heat_map_height heat_map_width : nat)
    (latent_dim : nat) (heat_map : HeatMap) : result HeatMap :=
  for_each
    (λ y_posn heat_map,
       for_each
         (λ x_posn heat_map,
            match getitem2 means (heat_map_width * y_posn + x_posn) latent_dim with
            | Ok v => Ok (heat_map_set heat_map x_posn y_posn (int32_of_float v))
            | Raise e => Raise e
            end)
         (seq 0 heat_map_height) heat_map)
    (seq 0 heat_map_width) heat_map.

(** [make_grid] of a batch holding one single-channel image: torchvision
    repeats the channel three times and returns that image; [nrow] and the
    padding play no part for a batch of one. *)
Definition make_grid_single (heat_map_height heat_map_width : nat)
    (heat_map : HeatMap) : Tensor3 Z :=
  mkTensor3 3 heat_map_height heat_map_width [heat_map; heat_map; heat_map].

(** [s.split(sep)] for a one-character separator. *)
Fixpoint split_on (sep : ascii) (s : string) : list string :=
  match s with
  | EmptyString => [EmptyString]
  | String c s' =>
      if Ascii.eqb c sep then EmptyString :: split_on sep s'
      else match split_on sep s' with
           | w :: ws => String c w :: ws
           | [] => [String c EmptyString]
           end
  end.

(** [[name, extension] = filename.split('.')], then
    [name + '-{}'.format(latent_dim) + '.' + extension]. *)
Definition heat_map_name (filename : string) (latent_dim : nat) : result string :=
  match split_on "." filename with
  | [name; extension] =>
      Ok (name +:+ "-" +:+ pretty latent_dim +:+ "." +:+ extension)
  | _ => Raise ValueError
  end.

(** The images written by [save_image], oldest first: file name and grid. *)
Abbreviation Files := (list (string * Tensor3 Z)).

(** [save_image(heat_map.data, heat_map_name, ...)] on the [int32] buffer.
    torchvision builds the grid and scales it in place for the image file
    ([grid.mul(255).add_(0.5)]); torch refuses to add 0.5 in place to an
    integer tensor, so the call raises [RuntimeError] before any file is
    opened. *)
Definition save_image_int32 (grid : Tensor3 Z) (name : string) (files : Files)
    : result unit * Files :=
  (Raise RuntimeError, files).

(** The loop [for latent_dim in range(means.shape[1])], over the dimensions
    still to do.  The buffer is the one object throughout.  The result is
    the value the method returns ([None] when the loop runs to its end)
    and the files written. *)
Fixpoint heat_map_loop (save_images : bool) (means : Matrix)
    (heat_map_height heat_map_width : nat) (filename : string)
    (dims : list nat) (heat_map : HeatMap) (files : Files)
    : result (option (Tensor3 Z)) * Files :=
  match dims with
  | [] => (Ok None, files)
  | latent_dim :: rest =>
      match fill_heat_map means heat_map_height heat_map_width latent_dim heat_map with
      | Raise e => (Raise e, files)
      | Ok heat_map =>
          if save_images then
            match heat_map_name filename latent_dim with
            | Raise e => (Raise e, files)
            | Ok name =>
                match save_image_int32
                        (make_grid_single heat_map_height heat_map_width heat_map)
                        name files with
                | (Raise e, files) => (Raise e, files)
                | (Ok _, files) =>
                    heat_map_loop save_images means heat_map_height heat_map_width
                      filename rest heat_map files
                end
            end
          else (Ok (Some (make_grid_single heat_map_height heat_map_width heat_map)), files)
      end
  end.

(** [Visualizer.generate_heat_maps], from [means] on: [means] is what the
    model returned for [data]. *)
Definition generate_heat_maps (save_images : bool) (means : Matrix)
    (heat_map_size : nat * nat) (filename : string)
    : result (option (Tensor3 Z)) * Files :=
  let heat_map_height := heat_map_size.1 in
  let heat_map_width := heat_map_size.2 in
  let heat_map := heat_map_zeros heat_map_height heat_map_width in
  heat_map_loop save_images means heat_map_height heat_map_width filename
    (seq 0 (m_cols means)) heat_map [].

(** ** [read_avg_kl_from_file] *)

(** [rows] is what [list(csv.reader(f))] yields for the log file: one list
    of fields per record.  [rows[-1:][0]] raises [IndexError] when there is
    no record; [last_line[1:]] drops the first field. *)
Definition read_avg_kl_from_file (rows : list (list string)) : result (list string) :=
  match drop (length rows - 1) rows with
  | last_line :: _ => Ok (drop 1 last_line)
  | [] => Raise IndexError
  end.

(** ** [sorted] *)

Section sorting.
Context {A : Type} (lt : A → A → result bool).

(** [x] goes before the first element that is not smaller than it. *)
Fixpoint insert_sorted (x : A) (l : list A) : result (list A) :=
  match l with
  | [] => Ok [x]
  | y :: l' =>
      match lt y x with
      | Ok true => match insert_sorted x l' with
                   | Ok r => Ok (y :: r)
                   | Raise e => Raise e
                   end
      | Ok false => Ok (x :: y :: l')
      | Raise e => Raise e
      end
  end.

(** A stable ascending sort that, like Python's, uses nothing but [<]. *)
Fixpoint sort_ascending (l : list A) : result (list A) :=
  match l with
  | [] => Ok []
  | x :: l' =>
      match sort_ascending l' with
      | Ok s => insert_sorted x s
      | Raise e => Raise e
      end
  end.

(** [sorted(l, reverse=True)]: Python reverses the list, sorts it ascending
    and stably, and reverses the outcome.  Python's merge sort and this
    insertion sort make different comparisons; for a comparison such as
    [tuple_lt] below they return the same list and raise in the same
    cases, because a comparison sort must compare the elements that end up
    next to each other. *)
Definition sorted_reverse (l : list A) : result (list A) :=
  match sort_ascending (rev l) with
  | Ok s => Ok (rev s)
  | Raise e => Raise e
  end.
End sorting.

(** The truth value of an elementwise comparison of two tensors,
    [bool(a == b)] and [bool(a < b)]: torch raises unless the comparison has
    exactly one element. *)
Definition single_element (a : Matrix) : option Q :=
  match m_rows a, m_cols a, m_data a with
  | 1, 1, [[v]] => Some v
  | _, _, _ => None
  end.

Definition tensor_eq_bool (a b : Matrix) : result bool :=
  match single_element a, single_element b with
  | Some x, Some y => Ok (Qeq_bool x y)
  | _, _ => Raise RuntimeError
  end.

Definition tensor_lt_bool (a b : Matrix) : result bool :=
  match single_element a, single_element b with
  | Some x, Some y => Ok (negb (Qle_bool y x))
  | _, _ => Raise RuntimeError
  end.

(** [p < q] for two tuples [(str, Tensor)]: Python looks for the first
    position where the tuples differ, with [==], and compares there. *)
Definition tuple_lt (p q : string * Matrix) : result bool :=
  if String.eqb p.1 q.1 then
    match tensor_eq_bool p.2 q.2 with
    | Ok true => Ok false
    | Ok false => tensor_lt_bool p.2 q.2
    | Raise e => Raise e
    end
  else Ok (String.ltb p.1 q.1).

(** Line 200 of [all_latent_traversals]:
    [[latent_sample for _, latent_sample in
      sorted(zip(avg_kl_list, latent_samples), reverse=True)]]. *)
Definition sort_latent_samples (avg_kl_list : list string)
    (latent_samples : list Matrix) : result (list Matrix) :=
  match sorted_reverse tuple_lt (zip avg_kl_list latent_samples) with
  | Ok l => Ok (l.*2)
  | Raise e => Raise e
  end.

(** Line 201, before the conversion of the keys with [round(float(_), 3)]. *)
Definition sort_avg_kl (avg_kl_list : list string)
    (latent_samples : list Matrix) : result (list string) :=
  match sorted_reverse tuple_lt (zip avg_kl_list latent_samples) with
  | Ok l => Ok (l.*1)
  | Raise e => Raise e
  end.

(** The number that a plain decimal numeral ([-]digits[.digits]) denotes;
    [float] returns the double nearest to it.  Other spellings that [float]
    accepts (exponents, blanks, [inf]) are not covered. *)
Definition digit_value (c : ascii) : option Z :=
  let n := Z.of_N (N_of_ascii c) in
  if (48 <=? n)%Z && (n <=? 57)%Z then Some (n - 48)%Z else None.

Fixpoint digits_value (acc : Z) (s : string) : option Z :=
  match s with
  | EmptyString => Some acc
  | String c s' =>
      match digit_value c with
      | Some d => digits_value (10 * acc + d) s'
      | None => None
      end
  end.

Definition unsigned_decimal_value (s : string) : option Q :=
  match split_on "." s with
  | [int_part] =>
      if String.eqb int_part "" then None
      else (λ n, inject_Z n) <$> digits_value 0 int_part
  | [int_part; frac_part] =>
      if String.eqb int_part "" && String.eqb frac_part "" then None
      else
        n ← digits_value 0 (int_part +:+ frac_part);
        Some (Qmake n (Z.to_pos (10 ^ Z.of_nat (String.length frac_part))))
  | _ => None
  end.

Definition decimal_value (s : string) : option Q :=
  match s with
  | String "-" s' => Qopp <$> unsigned_decimal_value s'
  | _ => unsigned_decimal_value s
  end.

(** ** PIL images *)

(** [int(1.3 * w)] for an integer [0 <= w < 2^53], in IEEE double
    arithmetic.  The double nearest to 1.3 is [float_1_3 / 2^52]; the exact
    product [float_1_3 * w / 2^52] is rounded to 53 significant bits, ties to
    even ([round53] works on the numerator), and [int] drops the fraction. *)
Definition float_1_3 : Z := 5854679515581645.

Definition round53 (n : Z) : Z :=
  let bits := (Z.log2 n + 1)%Z in
  if (bits <=? 53)%Z then n
  else
    let s := (bits - 53)%Z in
    let q := Z.shiftr n s in
    let r := Z.land n (Z.ones s) in
    let half := (2 ^ (s - 1))%Z in
    let q' := if (half <? r)%Z || ((r =? half)%Z && Z.odd q) then (q + 1)%Z else q in
    Z.shiftl q' s.

Definition int_1_3_times (w : Z) : Z := Z.shiftr (round53 (float_1_3 * w)) 52.

(** A PIL image, by the way it was made.  Text positions are left out. *)
Inductive Picture : Type :=
  | ToPILImage (tensor : Tensor3 Q)              (* transforms.ToPILImage()(tensor) *)
  | Image_new (size : Z * Z)                     (* Image.new("RGB", size, color) *)
  | Paste (canvas im : Picture) (box : Z * Z)    (* canvas.paste(im, box) *)
  | DrawText (canvas : Picture) (text : string). (* ImageDraw.Draw(canvas).text(..) *)

(** [im.size], which PIL gives as (width, height): a tensor of shape
    (C, H, W) becomes an image of width W and height H, [Image.new] takes
    the size as given, and pasting or drawing leaves the size alone. *)
Fixpoint pic_size (p : Picture) : Z * Z :=
  match p with
  | ToPILImage tensor => (Z.of_nat (t_cols tensor), Z.of_nat (t_rows tensor))
  | Image_new size => size
  | Paste canvas _ _ => pic_size canvas
  | DrawText canvas _ => pic_size canvas
  end.

Definition pic_width (p : Picture) : Z := (pic_size p).1.
Definition pic_height (p : Picture) : Z := (pic_size p).2.

(** Lines 208 to 219 of [all_latent_traversals]: the picture
    [traversal_images_with_text] made from the grid [tensor] and the labels. *)
Definition traversal_images_with_text (tensor : Tensor3 Q)
    (sorted_avg_kl_list : list string) : Picture :=
  let all_traversal_im := ToPILImage tensor in
  let new_width := int_1_3_times (pic_width all_traversal_im) in
  let new_size := (pic_height all_traversal_im, new_width) in
  let canvas := Image_new new_size in
  let canvas := Paste canvas all_traversal_im (0, 0)%Z in
  foldl (λ canvas latent_dim, DrawText canvas ("KL = " +:+ latent_dim))
    canvas sorted_avg_kl_list.

(** ** The visualizer *)

(** [torch.cat(ts, dim=0)] of two-dimensional tensors: an empty list is
    refused with [ValueError], tensors of different widths with
    [RuntimeError]. *)
Definition torch_cat (ts : list Matrix) : result Matrix :=
  match ts with
  | [] => Raise ValueError
  | t :: _ =>
      if forallb (λ u, m_cols u =? m_cols t) ts
      then Ok (mkMatrix (sum_list (m_rows <$> ts)) (m_cols t) (mjoin (m_data <$> ts)))
      else Raise RuntimeError
  end.

(** [[f(x) for x in l]]. *)
Fixpoint map_result {A B : Type} (f : A → result B) (l : list A) : result (list B) :=
  match l with
  | [] => Ok []
  | x :: l' =>
      match f x with
      | Ok y => match map_result f l' with
                | Ok ys => Ok (y :: ys)
                | Raise e => Raise e
                end
      | Raise e => Raise e
      end
  end.

Section Visualizer.
(** The collaborators: the latent traverser (its state besides the flag is
    [SamplerState]), the model's decoder, torchvision's [make_grid], and
    the text of [round(float(k), 3)] for a key [k]. *)
Context {SamplerState Images : Type}.

Record LatentTraverser : Type := mkLatentTraverser {
  sample_prior : bool;
  sampler_state : SamplerState
}.

Definition set_sample_prior (b : bool) (lt : LatentTraverser) : LatentTraverser :=
  mkLatentTraverser b (sampler_state lt).

(** What the methods read and change: the traverser object, the records
    of [model_dir/kl_data.log] ([None] when the file is missing), and the
    image files written so far. *)
Record World : Type := mkWorld {
  latent_traverser : LatentTraverser;
  kl_data_log : option (list (list string));
  saved : list (string * Picture)
}.

Definition with_traverser (w : World) (lt : LatentTraverser) : World :=
  mkWorld lt (kl_data_log w) (saved w).

Definition save (w : World) (filename : string) (p : Picture) : World :=
  mkWorld (latent_traverser w) (kl_data_log w) (saved w ++ [(filename, p)]).

Context (save_images : bool) (latent_dim : nat)
  (traverse_line : LatentTraverser → nat → nat → result Matrix * LatentTraverser)
  (traverse_grid : LatentTraverser → nat * nat → result Matrix * LatentTraverser)
  (decode_latents : Matrix → result Images)
  (make_grid : Images → nat → Tensor3 Q)
  (kl_label : string → result string).

(** [Visualizer.samples]. *)
Definition samples (size : nat * nat) (filename : string) (w : World)
    : result (option (Tensor3 Q)) * World :=
  let cached_sample_prior := sample_prior (latent_traverser w) in
  let lt := set_sample_prior true (latent_traverser w) in
  match traverse_grid lt size with
  | (Raise e, lt) => (Raise e, with_traverser w lt)
  | (Ok prior_samples, lt) =>
      let lt := set_sample_prior cached_sample_prior lt in
      let w := with_traverser w lt in
      match decode_latents prior_samples with
      | Raise e => (Raise e, w)
      | Ok generated =>
          if save_images
          then (Ok None, save w filename (ToPILImage (make_grid generated size.2)))
          else (Ok (Some (make_grid generated size.2)), w)
      end
  end.

(** The loop [for idx in range(self.model.latent_dim)] of
    [all_latent_traversals], over the indices still to do. *)
Fixpoint traverse_lines (size : nat) (idxs : list nat) (lt : LatentTraverser)
    : result (list Matrix) * LatentTraverser :=
  match idxs with
  | [] => (Ok [], lt)
  | idx :: rest =>
      match traverse_line lt idx size with
      | (Raise e, lt) => (Raise e, lt)
      | (Ok latent_sample, lt) =>
          match traverse_lines size rest lt with
          | (Ok latent_samples, lt) => (Ok (latent_sample :: latent_samples), lt)
          | (Raise e, lt) => (Raise e, lt)
          end
      end
  end.

(** [Visualizer.all_latent_traversals]. *)
Definition all_latent_traversals (size : nat) (filename : string) (w : World)
    : result (option (Tensor3 Q)) * World :=
  match kl_data_log w with
  | None => (Raise OSError, w)
  | Some rows =>
  match read_avg_kl_from_file rows with
  | Raise e => (Raise e, w)
  | Ok avg_kl_list =>
  match traverse_lines size (seq 0 latent_dim) (latent_traverser w) with
  | (Raise e, lt) => (Raise e, with_traverser w lt)
  | (Ok latent_samples, lt) =>
  let w := with_traverser w lt in
  match sort_latent_samples avg_kl_list latent_samples with
  | Raise e => (Raise e, w)
  | Ok latent_samples =>
  match sort_avg_kl avg_kl_list latent_samples with
  | Raise e => (Raise e, w)
  | Ok keys =>
  match map_result kl_label keys with
  | Raise e => (Raise e, w)
  | Ok sorted_avg_kl_list =>
  match torch_cat latent_samples with
  | Raise e => (Raise e, w)
  | Ok latents =>
  match decode_latents latents with
  | Raise e => (Raise e, w)
  | Ok generated =>
      let tensor := make_grid generated size in
      let picture := traversal_images_with_text tensor sorted_avg_kl_list in
      if save_images then (Ok None, save w filename picture)
      else (Ok (Some (make_grid generated size)), w)
  end end end end end end end end.
End Visualizer.

Arguments LatentTraverser SamplerState : clear implicits.
Arguments World SamplerState : clear implicits.

(** ** Coordinates of moved blocks *)

(** The address [delta] positions further along the reordered axis. *)
Definition shift_coord (by_row : bool) (delta : Z) (r k : nat) : nat * nat :=
  if by_row then (Z.to_nat (Z.of_nat r + delta), k)
  else (r, Z.to_nat (Z.of_nat k + delta)).

(** ** The order of the sort keys *)

(** [key_lt p q]: the key of [p] is smaller than the key of [q] in Python's
    order on strings (character by character, by code point). *)
Definition key_lt (p q : string * Matrix) : Prop := String.ltb p.1 q.1 = true.

(** ** [Visualizer.reconstructions] *)

(** A batch of images, a tensor of shape (N, C, H, W): the shape of one
    image and the N images. *)
Record Batch : Type := mkBatch {
  b_shape : nat * nat * nat;
  b_images : list (Tensor3 Q)
}.

(** [torch.cat([a, b])] along the first dimension: the other extents must
    agree. *)
Definition torch_cat_batches (a b : Batch) : result Batch :=
  if decide (b_shape a = b_shape b)
  then Ok (mkBatch (b_shape a) (b_images a ++ b_images b))
  else Raise RuntimeError.

(** What [reconstructions] reads and changes: the mode of the model
    ([model.training]) and the image files written so far. *)
Record ModelWorld : Type := mkModelWorld {
  training : bool;
  written : list (string * Picture)
}.

Section Reconstructions.
(** The collaborators: the forward pass of the model on a batch (its first
    result, [recon_data]), [recon_data.view(-1, *img_size)] as a list of
    images, and torchvision's [make_grid].  For [nrow = 0] and a batch that
    is not a single image, [make_grid] divides the number of images by
    [min(nrow, number of images)], which is 0, and raises
    [ZeroDivisionError]; this happens in both modes, [save_image] building
    its grid with [make_grid] first. *)
Context {Recon : Type} (save_images : bool) (img_size : nat * nat * nat)
  (model_forward : Batch → result Recon)
  (view_images : Recon → nat * nat * nat → result (list (Tensor3 Q)))
  (make_grid : Batch → nat → Tensor3 Q).

(** [Visualizer.reconstructions]. *)
Definition reconstructions (data : Batch) (size : nat * nat) (filename : string)
    (w : ModelWorld) : result (option (Tensor3 Q)) * ModelWorld :=
  let w := mkModelWorld false (written w) in
  match model_forward data with
  | Raise e => (Raise e, w)
  | Ok recon_data =>
  let w := mkModelWorld true (written w) in
  let num_images := size.1 in
  let originals := data in
  match view_images recon_data img_size with
  | Raise e => (Raise e, w)
  | Ok images =>
  let reconstructions := mkBatch img_size images in
  let num_examples := length (b_images originals) in
  match
    (if decide (num_examples < num_images) then
       let blank_images :=
         mkBatch (b_shape originals)
           (replicate (num_images - num_examples) (zeros 0%Q (b_shape originals))) in
       match torch_cat_batches originals blank_images with
       | Raise e => Raise e
       | Ok originals =>
           match torch_cat_batches reconstructions blank_images with
           | Raise e => Raise e
           | Ok reconstructions => Ok (originals, reconstructions)
           end
       end
     else Ok (originals, reconstructions))
  with
  | Raise e => (Raise e, w)
  | Ok (originals, reconstructions) =>
  match torch_cat_batches originals reconstructions with
  | Raise e => (Raise e, w)
  | Ok comparison =>
      if decide (size.1 = 0 ∧ length (b_images comparison) ≠ 1)
      then (Raise ZeroDivisionError, w)
      else if save_images
      then (Ok None,
            mkModelWorld (training w)
              (written w ++ [(filename, ToPILImage (make_grid comparison size.1))]))
      else (Ok (Some (make_grid comparison size.1)), w)
  end end end end.
End Reconstructions.

(** ** Concrete grids used in the examples

    [bordered_cell]: one 1x1 cell holding 7 inside a border of width one
    whose pixels are 10.  [two_row_grid]: two 1x1 cells (holding 1 and 2)
    stacked in a column, with gutter value 10 (5 rows, 3 columns). *)
Definition bordered_cell : Tensor3 Z :=
  mkTensor3 1 3 3 [[[10; 10; 10]; [10; 7; 10]; [10; 10; 10]]]%Z.

Definition two_row_grid : Tensor3 Z :=
  mkTensor3 1 5 3
    [[[10; 10; 10]; [10; 1; 10]; [10; 10; 10]; [10; 2; 10]; [10; 10; 10]]]%Z.

(** [means_0_15]: sixteen samples of one latent dimension with the means
    0, 1, ..., 15.  [means_half]: one sample whose mean is 1/2.
    [means_five]: five samples.  [means_two_dims]: one sample of two latent
    dimensions with the means 1 and 2. *)
Definition means_0_15 : Matrix :=
  mkMatrix 16 1 ((λ i : nat, [inject_Z (Z.of_nat i)]) <$> seq 0 16).

Definition means_half : Matrix := mkMatrix 1 1 [[1 # 2]].

Definition means_five : Matrix := mkMatrix 5 1 [[0]; [1]; [2]; [3]; [4]]%Q.

Definition means_two_dims : Matrix := mkMatrix 1 2 [[1; 2]]%Q.

(** [latent_line idx]: a stand-in for the traversal of latent dimension
    [idx], two samples of three latents, recognisable by its entries. *)
Definition latent_line (idx : nat) : Matrix :=
  mkMatrix 2 3 [[inject_Z (Z.of_nat idx); 0; 0]; [0; inject_Z (Z.of_nat idx); 0]]%Q.

(** A traverser that returns an empty batch and keeps its state, and a
    decoder that always fails. *)
Definition traverse_grid_stub (lt : LatentTraverser unit) (size : nat * nat)
    : result Matrix * LatentTraverser unit :=
  (Ok (mkMatrix 0 0 []), lt).

Definition decode_fails (latents : Matrix) : result unit := Raise RuntimeError.

Definition make_grid_stub (images : unit) (nrow : nat) : Tensor3 Q :=
  mkTensor3 3 0 0 [[]; []; []].

(** [means_fractions]: one sample of two latent dimensions with the means
    7/10 and -3/2. *)
Definition means_fractions : Matrix := mkMatrix 1 2 [[7 # 10; -3 # 2]].

Definition means_two_samples : Matrix := mkMatrix 2 1 [[0]; [1]]%Q.

(** [means_overflow]: one sample whose mean, 3000000000, is beyond the
    largest 32-bit integer. *)
Definition means_overflow : Matrix := mkMatrix 1 1 [[3000000000]]%Q.

(** A traverser whose [traverse_grid] raises and keeps its state. *)
Definition traverse_grid_raises (lt : LatentTraverser unit) (size : nat * nat)
    : result Matrix * LatentTraverser unit :=
  (Raise ValueError, lt).

(** [means_0_16]: as [means_0_15], with a seventeenth sample. *)
Definition means_0_16 : Matrix :=
  mkMatrix 17 1 ((λ i : nat, [inject_Z (Z.of_nat i)]) <$> seq 0 17).

(** Two 1x1 images holding 1 and 2, a forward pass that returns its input,
    a view that returns the images as they are, and a stand-in for
    [make_grid] that returns the first image of the batch. *)
Definition two_images : Batch :=
  mkBatch (1, 1, 1) [mkTensor3 1 1 1 [[[1]]]; mkTensor3 1 1 1 [[[2]]]]%Q.

Definition forward_id (data : Batch) : result Batch := Ok data.

Definition view_id (recon_data : Batch) (img_size : nat * nat * nat)
    : result (list (Tensor3 Q)) :=
  Ok (b_images recon_data).

Definition make_grid_first (images : Batch) (nrow : nat) : Tensor3 Q :=
  default (zeros 0%Q (b_shape images)) (head (b_images images)).

(** * Properties *)

(** ** Slices and splices *)

Lemma slice_range_bound n start stop s l :
  slice_range n start stop = (s, l) → s + l ≤ n.
Proof.
  unfold slice_range, slice_norm. intros [= <- <-].
  destruct (Z.ltb_spec start 0), (Z.ltb_spec stop 0); lia.
Qed.

Lemma slice_range_inside n a len :
  (0 ≤ a)%Z → (0 ≤ len)%Z → (a + len ≤ Z.of_nat n)%Z →
  slice_range n a (a + len) = (Z.to_nat a, Z.to_nat len).
Proof.
  intros Ha Hl Hn. unfold slice_range, slice_norm.
  destruct (Z.ltb_spec a 0), (Z.ltb_spec (a + len) 0); try lia.
  f_equal; lia.
Qed.

Lemma length_join_replicate {X} n (l : list X) :
  length (mjoin (replicate n l)) = n * length l.
Proof. induction n as [|n IH]; simpl; [done|]. rewrite length_app, IH. lia. Qed.

Lemma length_broadcast {X} dl sl (blk : list X) :
  length blk = sl → sl = dl ∨ sl = 1 → length (broadcast dl sl blk) = dl.
Proof.
  intros Hb Hs. unfold broadcast. case_decide; [lia|].
  rewrite length_join_replicate. lia.
Qed.

Section splice.
Context {X : Type}.
Implicit Types dst src : list X.

Lemma length_splice dst src da dl sb sl :
  da + dl ≤ length dst → sb + sl ≤ length src → sl = dl ∨ sl = 1 →
  length (splice dst src da dl sb sl) = length dst.
Proof.
  intros Hd Hs Hb. unfold splice.
  rewrite !length_app, length_take, length_drop, length_broadcast; [lia| |done].
  rewrite length_take, length_drop. lia.
Qed.

(** Outside [da..da+dl) the destination keeps its elements. *)
Lemma lookup_splice_outside dst src da dl sb sl i :
  da + dl ≤ length dst → sb + sl ≤ length src → sl = dl ∨ sl = 1 →
  ¬ (da ≤ i < da + dl) →
  splice dst src da dl sb sl !! i = dst !! i.
Proof.
  intros Hd Hs Hb Hi. unfold splice.
  assert (length (broadcast dl sl (take sl (drop sb src))) = dl) as Hlen.
  { apply length_broadcast; [|done]. rewrite length_take, length_drop. lia. }
  destruct (decide (i < da)) as [Hlt|Hge].
  - rewrite lookup_app_l by (rewrite length_take; lia).
    by rewrite lookup_take_lt.
  - rewrite lookup_app_r by (rewrite length_take; lia).
    rewrite length_take, lookup_app_r by lia.
    rewrite Hlen, lookup_drop. f_equal. lia.
Qed.

(** Inside [da..da+dl) it holds the source block, when the extents agree. *)
Lemma lookup_splice_inside dst src da dl sb i :
  da + dl ≤ length dst → sb + dl ≤ length src →
  da ≤ i < da + dl →
  splice dst src da dl sb dl !! i = src !! (sb + (i - da)).
Proof.
  intros Hd Hs Hi. unfold splice, broadcast. rewrite decide_True by done.
  rewrite lookup_app_r by (rewrite length_take; lia).
  rewrite length_take, lookup_app_l by (rewrite length_take, length_drop; lia).
  rewrite lookup_take_lt by lia. rewrite lookup_drop. f_equal. lia.
Qed.
End splice.

(** Whether a position lies in one of the blocks [i0+1 .. i0+m] can be
    decided. *)
Lemma classic_block i0 (m : nat) dim padding i :
  (∃ j, (Z.succ i0 ≤ j < Z.succ i0 + Z.of_nat m)%Z ∧ in_block dim padding j i)
  ∨ (∀ j, (Z.succ i0 ≤ j < Z.succ i0 + Z.of_nat m)%Z → ¬ in_block dim padding j i).
Proof.
  induction m as [|m [IH|IH]].
  - right. lia.
  - left. destruct IH as (j & Hj & Hb). exists j. split; [lia|done].
  - unfold in_block in *.
    destruct (decide ((Z.succ i0 + Z.of_nat m) * (padding + dim) + padding ≤ Z.of_nat i
                      < (Z.succ i0 + Z.of_nat m) * (padding + dim) + padding + dim)%Z)
      as [Hin|Hout].
    + left. exists (Z.succ i0 + Z.of_nat m)%Z. split; [lia|done].
    + right. intros j Hj.
      destruct (decide (j = Z.succ i0 + Z.of_nat m)%Z) as [->|]; [done|].
      apply IH. lia.
Qed.

(** ** Block assignment on tensors *)

Section reorder_facts.
Context {px : Type} (zero : px).
Implicit Types t dst src : Tensor3 px.

Lemma well_shaped_zeros shape : well_shaped (zeros zero shape).
Proof.
  destruct shape as [[c h] w]. split; simpl.
  - by rewrite length_replicate.
  - apply Forall_replicate. split; [by rewrite length_replicate|].
    apply Forall_replicate. by rewrite length_replicate.
Qed.

Lemma size_zeros shape : size (zeros zero shape) = shape.
Proof. by destruct shape as [[c h] w]. Qed.

Lemma pixel_zeros shape c r k :
  c < shape.1.1 → r < shape.1.2 → k < shape.2 →
  pixel (zeros zero shape) c r k = Some zero.
Proof.
  destruct shape as [[c' h] w]; simpl. intros Hc Hr Hk. unfold pixel; simpl.
  rewrite lookup_replicate_2 by done; simpl.
  rewrite lookup_replicate_2 by done; simpl.
  by rewrite lookup_replicate_2.
Qed.

Lemma well_shaped_lookup t c ch :
  well_shaped t → t_data t !! c = Some ch →
  length ch = t_rows t ∧ ∀ r row, ch !! r = Some row → length row = t_cols t.
Proof.
  intros [_ Hall] Hc. rewrite Forall_lookup in Hall.
  destruct (Hall _ _ Hc) as [Hlen Hrows]. split; [done|].
  intros r row Hr. rewrite Forall_lookup in Hrows. eauto.
Qed.

(** A successful block assignment keeps the shape and every pixel outside
    the destination slice. *)
Lemma setitem_block_Ok by_row dst src a b len t' :
  well_shaped dst → well_shaped src → size dst = size src →
  setitem_block by_row dst src a b len = Ok t' →
  well_shaped t' ∧ size t' = size dst ∧
  ∀ c r k, ¬ in_slice (axis_len by_row dst) a (a + len) (axis_coord by_row r k) →
           pixel t' c r k = pixel dst c r k.
Proof.
  intros Hd Hs Hsz. unfold setitem_block, in_slice, axis_len.
  assert (t_chan dst = t_chan src ∧ t_rows dst = t_rows src
          ∧ t_cols dst = t_cols src) as (Hc & Hr & Hk).
  { unfold size in Hsz. by simplify_eq. }
  destruct (slice_range _ a (a + len)) as [da dl] eqn:Eda.
  destruct (slice_range _ b (b + len)) as [sb sl] eqn:Esb.
  apply slice_range_bound in Eda, Esb.
  case_decide as Hb; [|done]. intros [= <-].
  pose proof Hd as [Hdl _]. pose proof Hs as [Hsl _].
  split; [|split; [done|]].
  - split; simpl.
    + rewrite length_zip_with. lia.
    + apply Forall_lookup. intros c ch Hch.
      apply lookup_zip_with_Some in Hch as (dch & sch & -> & Hdc & Hsc).
      destruct (well_shaped_lookup _ _ _ Hd Hdc) as [Hdr Hdk].
      destruct (well_shaped_lookup _ _ _ Hs Hsc) as [Hsr Hsk].
      destruct by_row.
      * split; [rewrite length_splice; lia|].
        apply Forall_lookup. intros r row Hrow.
        destruct (decide (da ≤ r < da + dl)) as [Hin|Hout].
        -- unfold splice in Hrow.
           rewrite lookup_app_r in Hrow by (rewrite length_take; lia).
           rewrite length_take in Hrow.
           assert (length (broadcast dl sl (take sl (drop sb sch))) = dl) as Hbl.
           { apply length_broadcast; [|done].
             rewrite length_take, length_drop. lia. }
           rewrite lookup_app_l in Hrow by lia.
           apply list_elem_of_lookup_2 in Hrow. unfold broadcast in Hrow.
           assert (row ∈ sch) as Hel.
           { case_decide.
             - apply elem_of_take in Hrow as (i & Hi & _).
               rewrite lookup_drop in Hi. by eapply list_elem_of_lookup_2.
             - apply list_elem_of_join in Hrow as (blk & Hrow & Hblk).
               apply elem_of_replicate in Hblk as [-> _].
               apply elem_of_take in Hrow as (i & Hi & _).
               rewrite lookup_drop in Hi. by eapply list_elem_of_lookup_2. }
           apply list_elem_of_lookup in Hel as [i Hi].
           rewrite (Hsk _ _ Hi). lia.
        -- rewrite lookup_splice_outside in Hrow by lia. eauto.
      * split; [rewrite length_zip_with; lia|].
        apply Forall_lookup. intros r row Hrow.
        apply lookup_zip_with_Some in Hrow as (drow & srow & -> & Hdrow & Hsrow).
        rewrite length_splice; [eauto| | |done].
        -- rewrite (Hdk _ _ Hdrow). lia.
        -- rewrite (Hsk _ _ Hsrow). lia.
  - intros c r k Hout. unfold pixel; simpl.
    rewrite lookup_zip_with.
    destruct (t_data dst !! c) as [dch|] eqn:Hdc; simpl; [|done].
    destruct (t_data src !! c) as [sch|] eqn:Hsc; simpl.
    2:{ apply lookup_ge_None in Hsc. apply lookup_lt_Some in Hdc. lia. }
    destruct (well_shaped_lookup _ _ _ Hd Hdc) as [Hdr Hdk].
    destruct (well_shaped_lookup _ _ _ Hs Hsc) as [Hsr Hsk].
    destruct by_row; simpl in Hout.
    + rewrite lookup_splice_outside by lia. done.
    + rewrite lookup_zip_with.
      destruct (dch !! r) as [drow|] eqn:Hdrow; simpl; [|done].
      destruct (sch !! r) as [srow|] eqn:Hsrow; simpl.
      2:{ apply lookup_ge_None in Hsrow. apply lookup_lt_Some in Hdrow. lia. }
      rewrite lookup_splice_outside; [done| | |done|done].
      * rewrite (Hdk _ _ Hdrow). lia.
      * rewrite (Hsk _ _ Hsrow). lia.
Qed.
(** Inside the image every block assignment succeeds. *)
Lemma setitem_block_inside_Ok by_row dst src a b len :
  size dst = size src →
  (0 ≤ a)%Z → (0 ≤ b)%Z → (0 ≤ len)%Z →
  (a + len ≤ Z.of_nat (axis_len by_row dst))%Z →
  (b + len ≤ Z.of_nat (axis_len by_row dst))%Z →
  is_Ok (setitem_block by_row dst src a b len).
Proof.
  intros Hsz Ha Hb Hl Han Hbn. unfold setitem_block, axis_len in *.
  assert (t_rows dst = t_rows src ∧ t_cols dst = t_cols src) as [Hr Hk].
  { unfold size in Hsz. by simplify_eq. }
  rewrite <-Hr, <-Hk.
  rewrite !slice_range_inside by (destruct by_row; lia).
  rewrite decide_True by auto. done.
Qed.

(** Copying a block onto its own position: inside the block the result
    holds the source's pixels. *)
Lemma setitem_block_same by_row dst src a len t' :
  well_shaped dst → well_shaped src → size dst = size src →
  (0 ≤ a)%Z → (0 ≤ len)%Z →
  (a + len ≤ Z.of_nat (axis_len by_row dst))%Z →
  setitem_block by_row dst src a a len = Ok t' →
  ∀ c r k, (a ≤ Z.of_nat (axis_coord by_row r k) < a + len)%Z →
           pixel t' c r k = pixel src c r k.
Proof.
  intros Hd Hs Hsz Ha Hl Han. unfold setitem_block, axis_len in *.
  assert (t_chan dst = t_chan src ∧ t_rows dst = t_rows src
          ∧ t_cols dst = t_cols src) as (Hc & Hr & Hk).
  { unfold size in Hsz. by simplify_eq. }
  rewrite <-Hr, <-Hk.
  rewrite !slice_range_inside by (destruct by_row; lia).
  rewrite decide_True by auto. intros [= <-] c r k Hin.
  pose proof Hd as [Hdl _]. pose proof Hs as [Hsl _].
  unfold pixel; simpl. rewrite lookup_zip_with.
  destruct (t_data src !! c) as [sch|] eqn:Hsc; simpl.
  2:{ destruct (t_data dst !! c); done. }
  destruct (t_data dst !! c) as [dch|] eqn:Hdc; simpl.
  2:{ apply lookup_ge_None in Hdc. apply lookup_lt_Some in Hsc. lia. }
  destruct (well_shaped_lookup _ _ _ Hd Hdc) as [Hdr Hdk].
  destruct (well_shaped_lookup _ _ _ Hs Hsc) as [Hsr Hsk].
  destruct by_row; simpl in Hin.
  - rewrite lookup_splice_inside by lia. do 2 f_equal. lia.
  - rewrite lookup_zip_with.
    destruct (sch !! r) as [srow|] eqn:Hsrow; simpl.
    2:{ destruct (dch !! r); done. }
    destruct (dch !! r) as [drow|] eqn:Hdrow; simpl.
    2:{ apply lookup_ge_None in Hdrow. apply lookup_lt_Some in Hsrow. lia. }
    rewrite lookup_splice_inside.
    + f_equal. lia.
    + rewrite (Hdk _ _ Hdrow). lia.
    + rewrite (Hsk _ _ Hsrow). lia.
    + lia.
Qed.

(** Inside the image the destination slice of block [idx] is the block. *)
Lemma dest_block_inside n dim padding idx i :
  (0 ≤ padding)%Z → (0 ≤ dim)%Z → (0 ≤ idx)%Z →
  ((idx + 1) * (padding + dim) ≤ Z.of_nat n)%Z →
  dest_block n dim padding idx i ↔ in_block dim padding idx i.
Proof.
  intros Hp Hd Hi Hn. unfold dest_block, in_slice, in_block.
  rewrite slice_range_inside by nia. lia.
Qed.
(** ** The loop of [reorder_img] *)

Lemma axis_len_size by_row t t' : size t = size t' → axis_len by_row t = axis_len by_row t'.
Proof. unfold size, axis_len. intros ?; simplify_eq. by destruct by_row. Qed.

(** Whatever the loop does, it writes only to [reordered_img], keeps its
    shape, and leaves alone every pixel that no destination slice covers. *)
Lemma reorder_loop_frame orig new by_row h w p reorder :
  ∀ i0 (σ : gmap nat (Tensor3 px)) src dst res σ',
  orig ≠ new → σ !! orig = Some src → σ !! new = Some dst →
  well_shaped src → well_shaped dst → size dst = size src →
  reorder_loop zero orig new by_row h w p i0 reorder σ = (res, σ') →
  (∀ l, l ≠ new → σ' !! l = σ !! l) ∧
  ∃ dst', σ' !! new = Some dst' ∧ well_shaped dst' ∧ size dst' = size src ∧
    ∀ c r k,
      (∀ j : nat, j < length reorder →
         ¬ dest_block (axis_len by_row src) (axis_dim by_row h w) p
             (i0 + Z.of_nat j) (axis_coord by_row r k)) →
      pixel dst' c r k = pixel dst c r k.
Proof.
  induction reorder as [|old rest IH]; intros i0 σ src dst res σ' Hne Ho Hn Hws Hwd Hsz; simpl.
  - intros [= <- <-]. split; [done|]. by exists dst.
  - rewrite (lookup_total_correct _ _ _ Hn), (lookup_total_correct _ _ _ Ho).
    fold (axis_dim by_row h w).
    destruct (setitem_block _ _ _ _ _ _) as [t'|e] eqn:E.
    + destruct (setitem_block_Ok _ _ _ _ _ _ _ Hwd Hws Hsz E) as (Hwt & Hst & Hpix).
      intros Hloop.
      eapply (IH _ _ src t') in Hloop as (Hfr & dst' & Hl' & Hw' & Hs' & Hpix').
      * split.
        { intros l Hl. rewrite Hfr by done. by rewrite lookup_insert_ne. }
        exists dst'. split_and!; [done..|].
        intros c r k Hout. rewrite Hpix'.
        -- apply Hpix. rewrite (axis_len_size _ _ _ Hsz).
           specialize (Hout 0%nat). unfold dest_block in Hout.
           rewrite Z.add_0_r in Hout. apply Hout. simpl; lia.
        -- intros j Hj. specialize (Hout (S j)).
           replace (i0 + 1 + Z.of_nat j)%Z with (i0 + Z.of_nat (S j))%Z by lia.
           apply Hout. simpl; lia.
      * done.
      * by rewrite lookup_insert_ne.
      * by rewrite lookup_insert_eq.
      * done.
      * done.
      * congruence.
    + intros [= <- <-]. split; [done|]. by exists dst.
Qed.

(** When every block named by the loop lies inside the image, no
    assignment raises. *)
Lemma reorder_loop_inside_Ok orig new by_row h w p N reorder :
  ∀ i0 (σ : gmap nat (Tensor3 px)) src dst,
  orig ≠ new → σ !! orig = Some src → σ !! new = Some dst →
  well_shaped src → well_shaped dst → size dst = size src →
  (0 ≤ p)%Z → (0 ≤ axis_dim by_row h w)%Z → (0 ≤ i0)%Z →
  Forall (λ old, (0 ≤ old < N)%Z) reorder →
  (i0 + Z.of_nat (length reorder) ≤ N)%Z →
  (N * (p + axis_dim by_row h w) ≤ Z.of_nat (axis_len by_row src))%Z →
  (reorder_loop zero orig new by_row h w p i0 reorder σ).1 = Ok ().
Proof.
  induction reorder as [|old rest IH];
    intros i0 σ src dst Hne Ho Hn Hws Hwd Hsz Hp Hd Hi0 Hall Hlen HN; simpl; [done|].
  rewrite (lookup_total_correct _ _ _ Hn), (lookup_total_correct _ _ _ Ho).
  fold (axis_dim by_row h w).
  apply Forall_cons in Hall as [Hold Hall]. simpl in Hlen.
  pose proof (axis_len_size by_row _ _ Hsz) as Hax.
  destruct (setitem_block _ _ _ _ _ _) as [t'|e] eqn:E.
  - destruct (setitem_block_Ok _ _ _ _ _ _ _ Hwd Hws Hsz E) as (Hwt & Hst & _).
    eapply (IH _ _ src t'); try done.
    + by rewrite lookup_insert_ne.
    + by rewrite lookup_insert_eq.
    + congruence.
    + lia.
    + lia.
  - exfalso. cut (is_Ok (@Raise (Tensor3 px) e)); [done|]. rewrite <-E.
    apply setitem_block_inside_Ok; [done|nia..].
Qed.
(** The loop over the identity permutation [i0, i0+1, ..., i0+m-1]: every
    pixel inside one of these blocks ends up with the source's value, and
    every other pixel is left as it was. *)
Lemma reorder_loop_identity orig new by_row h w p N (m : nat) :
  ∀ i0 (σ : gmap nat (Tensor3 px)) src dst,
  orig ≠ new → σ !! orig = Some src → σ !! new = Some dst →
  well_shaped src → well_shaped dst → size dst = size src →
  (0 ≤ p)%Z → (0 ≤ axis_dim by_row h w)%Z → (0 ≤ i0)%Z →
  (i0 + Z.of_nat m ≤ N)%Z →
  (N * (p + axis_dim by_row h w) ≤ Z.of_nat (axis_len by_row src))%Z →
  ∃ σ' dst',
    reorder_loop zero orig new by_row h w p i0 (seqZ i0 (Z.of_nat m)) σ = (Ok (), σ')
    ∧ σ' !! new = Some dst'
    ∧ ∀ c r k,
        ((∃ j, (i0 ≤ j < i0 + Z.of_nat m)%Z
               ∧ in_block (axis_dim by_row h w) p j (axis_coord by_row r k)) →
         pixel dst' c r k = pixel src c r k)
        ∧ ((∀ j, (i0 ≤ j < i0 + Z.of_nat m)%Z →
                 ¬ in_block (axis_dim by_row h w) p j (axis_coord by_row r k)) →
           pixel dst' c r k = pixel dst c r k).
Proof.
  induction m as [|m IH]; intros i0 σ src dst Hne Ho Hn Hws Hwd Hsz Hp Hd Hi0 Hlen HN.
  - exists σ, dst. simpl. split_and!; [done..|]. intros c r k. split; [|done].
    intros (j & Hj & _). lia.
  - rewrite seqZ_cons by lia.
    replace (Z.pred (Z.of_nat (S m))) with (Z.of_nat m) by lia.
    simpl. rewrite (lookup_total_correct _ _ _ Hn), (lookup_total_correct _ _ _ Ho).
    fold (axis_dim by_row h w).
    pose proof (axis_len_size by_row _ _ Hsz) as Hax.
    set (start := (i0 * (p + axis_dim by_row h w) + p)%Z).
    assert (start + axis_dim by_row h w ≤ Z.of_nat (axis_len by_row dst))%Z as Hin
      by (unfold start; nia).
    assert (0 ≤ start)%Z as Hst by (unfold start; nia).
    destruct (setitem_block _ _ _ _ _ _) as [t'|e] eqn:E.
    2:{ exfalso. cut (is_Ok (@Raise (Tensor3 px) e)); [done|]. rewrite <-E.
        by apply setitem_block_inside_Ok. }
    destruct (setitem_block_Ok _ _ _ _ _ _ _ Hwd Hws Hsz E) as (Hwt & Hst' & Hout).
    pose proof (setitem_block_same _ _ _ _ _ _ Hwd Hws Hsz Hst Hd Hin E) as Hsame.
    destruct (IH (Z.succ i0) (<[new:=t']> σ) src t') as (σ' & dst' & Hrun & Hl' & Hpix);
      try done.
    { by rewrite lookup_insert_ne. }
    { by rewrite lookup_insert_eq. }
    { congruence. }
    { lia. }
    { lia. }
    exists σ', dst'. replace (i0 + 1)%Z with (Z.succ i0) by lia.
    split_and!; [done..|]. intros c r k.
    destruct (Hpix c r k) as [Hsrc Hkeep].
    destruct (decide (start ≤ Z.of_nat (axis_coord by_row r k)
                        < start + axis_dim by_row h w)%Z) as [Hhere|Hnot].
    + (* the pixel lies in block [i0] *)
      assert (pixel dst' c r k = pixel src c r k) as Heq.
      { destruct (classic_block i0 m (axis_dim by_row h w) p (axis_coord by_row r k))
          as [Hex|Hno].
        - by apply Hsrc.
        - rewrite Hkeep by done. by apply Hsame. }
      split; [done|]. intros Hnone. exfalso. apply (Hnone i0); [lia|]. done.
    + split.
      * intros (j & Hj & Hblk). apply Hsrc. exists j. split; [|done].
        destruct (decide (j = i0)) as [->|]; [|lia]. done.
      * intros Hnone. rewrite Hkeep by (intros j Hj; apply Hnone; lia).
        apply Hout. unfold in_slice.
        rewrite slice_range_inside by lia. lia.
Qed.
End reorder_facts.

(** ** [reorder_img] *)

Section reorder_img_properties.
Context {px : Type} (zero : px).

Lemma fresh_reference (σ : gmap nat (Tensor3 px)) : σ !! fresh (dom σ) = None.
Proof. apply not_elem_of_dom, is_fresh. Qed.

(** C4. [reorder_img] builds its result in a new tensor of the input's
    size, allocated zero-filled, and never writes to the input: it returns
    whenever every block it is asked to move lies inside the image (as for
    any permutation of the rows or columns of a grid), and whenever it
    returns, the result is a reference that was not in use, every other
    object of the store (the input image among them) is as before, the
    result has the input's size, and every pixel that no destination block
    [new_idx] covers is zero. *)
Theorem reorder_img_fresh_zero_canvas (σ : gmap nat (Tensor3 px)) orig_img t
    reorder by_row c h w padding :
  σ !! orig_img = Some t → well_shaped t →
  ((0 ≤ padding)%Z → (0 ≤ axis_dim by_row h w)%Z →
   (∃ N, Forall (λ old_idx, (0 ≤ old_idx < N)%Z) reorder
         ∧ (Z.of_nat (length reorder) ≤ N)%Z
         ∧ (N * (padding + axis_dim by_row h w) ≤ Z.of_nat (axis_len by_row t))%Z) →
   is_Ok (reorder_img zero orig_img reorder by_row (c, h, w) padding σ).1)
  ∧ ∀ l σ', reorder_img zero orig_img reorder by_row (c, h, w) padding σ = (Ok l, σ') →
      σ !! l = None
      ∧ σ' !! orig_img = Some t
      ∧ (∀ l', l' ≠ l → σ' !! l' = σ !! l')
      ∧ ∃ out, σ' !! l = Some out ∧ well_shaped out ∧ size out = size t
          ∧ ∀ ch r k, ch < t_chan t → r < t_rows t → k < t_cols t →
              (∀ new_idx : nat, new_idx < length reorder →
                 ¬ dest_block (axis_len by_row t) (axis_dim by_row h w) padding
                     (Z.of_nat new_idx) (axis_coord by_row r k)) →
              pixel out ch r k = Some zero.
Proof.
  intros Ho Hwf. unfold reorder_img, torch_zeros.
  rewrite (lookup_total_correct _ _ _ Ho).
  pose proof (fresh_reference σ) as Hfresh.
  set (l0 := fresh (dom σ)) in *.
  assert (orig_img ≠ l0) as Hne by congruence.
  set (σ1 := <[l0:=zeros zero (size t)]> σ).
  assert (σ1 !! orig_img = Some t) as Ho1 by (unfold σ1; by rewrite lookup_insert_ne).
  assert (σ1 !! l0 = Some (zeros zero (size t))) as Hn1
    by (unfold σ1; by rewrite lookup_insert_eq).
  pose proof (well_shaped_zeros zero (size t)) as Hwz.
  pose proof (size_zeros zero (size t)) as Hsz.
  split.
  - intros Hp Hd (N & Hall & Hlen & HN).
    pose proof (reorder_loop_inside_Ok zero orig_img l0 by_row h w padding N reorder
                  0 σ1 t _ Hne Ho1 Hn1 Hwf Hwz Hsz Hp Hd) as Hrun.
    destruct (reorder_loop _ _ _ _ _ _ _ _ _ _) as [res σ2]. simpl in Hrun.
    rewrite Hrun; [done|lia|done|lia|done].
  - intros l σ'.
    destruct (reorder_loop _ _ _ _ _ _ _ _ _ _) as [res σ2] eqn:E.
    destruct (reorder_loop_frame zero _ _ _ _ _ _ _ _ _ _ _ _ _ Hne Ho1 Hn1 Hwf Hwz Hsz E)
      as (Hfr & out & Hout & Hwo & Hso & Hpix).
    destruct res as [[]|e]; [|done]. intros [= <- <-].
    split_and!; [done| |..].
    + rewrite Hfr by done. done.
    + intros l' Hl'. rewrite Hfr by done. unfold σ1. by rewrite lookup_insert_ne.
    + exists out. split_and!; [done..|].
      intros ch r k Hch Hr Hk Hnone. rewrite Hpix.
      * by apply pixel_zeros.
      * intros j Hj. rewrite Z.add_0_l. by apply Hnone.
Qed.

(** C3 (as amended). On a grid whose reordered axis is exactly tiled by
    [N] cells of extent [dim] with [padding], [reorder_img] with the
    identity permutation [0, ..., N-1] returns a tensor of the input's size
    that agrees with the input on every pixel inside a cell block along
    that axis, and is zero on the gutter positions of that axis. *)
Theorem reorder_img_identity_cells (σ : gmap nat (Tensor3 px)) orig_img t
    by_row c h w padding (N : nat) :
  σ !! orig_img = Some t → well_shaped t →
  (0 ≤ padding)%Z → (0 ≤ axis_dim by_row h w)%Z →
  Z.of_nat (axis_len by_row t)
    = (Z.of_nat N * (padding + axis_dim by_row h w) + padding)%Z →
  ∃ l σ' out,
    reorder_img zero orig_img (seqZ 0 (Z.of_nat N)) by_row (c, h, w) padding σ = (Ok l, σ')
    ∧ σ' !! l = Some out ∧ size out = size t
    ∧ ∀ ch r k, ch < t_chan t → r < t_rows t → k < t_cols t →
        ((∃ idx, (0 ≤ idx < Z.of_nat N)%Z
                 ∧ in_block (axis_dim by_row h w) padding idx (axis_coord by_row r k)) →
         pixel out ch r k = pixel t ch r k)
        ∧ ((∀ idx, (0 ≤ idx < Z.of_nat N)%Z →
                   ¬ in_block (axis_dim by_row h w) padding idx (axis_coord by_row r k)) →
           pixel out ch r k = Some zero).
Proof.
  intros Ho Hwf Hp Hd Htile. unfold reorder_img, torch_zeros.
  rewrite (lookup_total_correct _ _ _ Ho).
  pose proof (fresh_reference σ) as Hfresh.
  set (l0 := fresh (dom σ)) in *.
  assert (orig_img ≠ l0) as Hne by congruence.
  set (σ1 := <[l0:=zeros zero (size t)]> σ).
  assert (σ1 !! orig_img = Some t) as Ho1 by (unfold σ1; by rewrite lookup_insert_ne).
  assert (σ1 !! l0 = Some (zeros zero (size t))) as Hn1
    by (unfold σ1; by rewrite lookup_insert_eq).
  pose proof (well_shaped_zeros zero (size t)) as Hwz.
  pose proof (size_zeros zero (size t)) as Hsz.
  destruct (reorder_loop_identity zero orig_img l0 by_row h w padding (Z.of_nat N) N
              0 σ1 t _ Hne Ho1 Hn1 Hwf Hwz Hsz Hp Hd)
    as (σ' & out & Hrun & Hout & Hpix); [lia..|].
  destruct (reorder_loop_frame zero _ _ _ _ _ _ _ _ _ _ _ _ _ Hne Ho1 Hn1 Hwf Hwz Hsz Hrun)
    as (_ & out' & Hout' & _ & Hso & _).
  assert (out' = out) as -> by congruence.
  rewrite Hrun. exists l0, σ', out. split_and!; [done..|].
  intros ch r k Hch Hr Hk. destruct (Hpix ch r k) as [Hin Hnone]. split.
  - intros (idx & Hidx & Hb). apply Hin. exists idx. split; [lia|done].
  - intros Hno. rewrite Hnone.
    + by apply pixel_zeros.
    + intros j Hj. apply Hno. lia.
Qed.
End reorder_img_properties.

(** C3's counterexample.  [bordered_cell] is a grid of one cell, exactly
    tiled by a 1x1 cell and padding 1; the identity permutation [[0]] over its
    single row returns the cell row between two zeroed gutter rows, which
    is not the input. *)
Lemma reorder_img_identity_zeroes_gutters :
  ∃ l σ' out,
    reorder_img 0%Z 0 (seqZ 0 1) true (1, 1, 1)%Z 1%Z {[ 0 := bordered_cell ]} = (Ok l, σ')
    ∧ σ' !! l = Some out
    ∧ pixel out 0 0 0 = Some 0%Z
    ∧ pixel bordered_cell 0 0 0 = Some 10%Z
    ∧ out ≠ bordered_cell.
Proof.
  do 3 eexists. split_and!; [vm_compute; reflexivity..|].
  vm_compute. intros [=].
Qed.

Lemma well_shaped_two_row_grid : well_shaped two_row_grid.
Proof. split; [reflexivity|]. repeat constructor. Defined.

Lemma lookup_two_row_grid :
  ({[ 0 := two_row_grid ]} : gmap nat (Tensor3 Z)) !! 0 = Some two_row_grid.
Proof. reflexivity. Defined.

Lemma reorder_img_identity_cells_witness :
  ({[ 0 := two_row_grid ]} : gmap nat (Tensor3 Z)) !! 0 = Some two_row_grid
  ∧ well_shaped two_row_grid
  ∧ ∃ l σ' out,
      reorder_img 0%Z 0 (seqZ 0 2) true (1, 1, 1)%Z 1%Z {[ 0 := two_row_grid ]} = (Ok l, σ')
      ∧ σ' !! l = Some out ∧ size out = size two_row_grid.
Proof.
  split; [exact lookup_two_row_grid|]. split; [exact well_shaped_two_row_grid|].
  destruct (reorder_img_identity_cells 0%Z {[ 0 := two_row_grid ]} 0 two_row_grid
              true 1%Z 1%Z 1%Z 1%Z 2 lookup_two_row_grid well_shaped_two_row_grid)
    as (l & σ' & out & Hrun & Hout & Hsz & _); [simpl; lia..|reflexivity|].
  exists l, σ', out. auto.
Defined.

Lemma reorder_img_fresh_zero_canvas_witness :
  ({[ 0 := two_row_grid ]} : gmap nat (Tensor3 Z)) !! 0 = Some two_row_grid
  ∧ well_shaped two_row_grid
  ∧ is_Ok (reorder_img 0%Z 0 [1; 0]%Z true (1, 1, 1)%Z 1%Z {[ 0 := two_row_grid ]}).1.
Proof.
  split; [exact lookup_two_row_grid|]. split; [exact well_shaped_two_row_grid|].
  apply (proj1 (reorder_img_fresh_zero_canvas 0%Z {[ 0 := two_row_grid ]} 0 two_row_grid
                  [1; 0]%Z true 1%Z 1%Z 1%Z 1%Z lookup_two_row_grid well_shaped_two_row_grid));
    [simpl; lia..|].
  exists 2%Z. split_and!; [repeat constructor; lia|simpl; lia|simpl; lia].
Defined.

(** ** Loops *)

Lemma for_each_app {A S} (body : A → S → result S) xs ys s :
  for_each body (xs ++ ys) s = for_each body xs s ≫= for_each body ys.
Proof.
  revert s. induction xs as [|x xs IH]; intros s; simpl; [done|].
  destruct (body x s); simpl; [apply IH|done].
Qed.

Lemma for_each_fmap {A B S} (g : A → B) (body : B → S → result S) xs s :
  for_each body (g <$> xs) s = for_each (λ x, body (g x)) xs s.
Proof.
  revert s. induction xs as [|x xs IH]; intros s; simpl; [done|].
  destruct (body (g x) s); [apply IH|done].
Qed.

(** Two nested loops are one loop over the pairs, in visiting order. *)
Lemma for_each_nested {A B S} (body : A → B → S → result S) xs ys s :
  for_each (λ x s, for_each (body x) ys s) xs s
  = for_each (λ p s, body p.1 p.2 s) (x ← xs; (λ y, (x, y)) <$> ys) s.
Proof.
  revert s. induction xs as [|x xs IH]; intros s; simpl; [done|].
  rewrite for_each_app, for_each_fmap. simpl.
  destruct (for_each (body x) ys s); simpl; [apply IH|done].
Qed.

Lemma elem_of_cells H W y x : (y, x) ∈ cells H W ↔ y < W ∧ x < H.
Proof.
  unfold cells. rewrite list_elem_of_bind. split.
  - intros (y' & Hin & Hy). apply list_elem_of_fmap in Hin as (x' & [= -> ->] & Hx).
    apply elem_of_seq in Hy, Hx. lia.
  - intros [Hy Hx]. exists y. split.
    + apply list_elem_of_fmap. exists x. split; [done|]. apply elem_of_seq. lia.
    + apply elem_of_seq. lia.
Qed.

(** ** The heat-map buffer *)

Lemma heat_map_at_set hm x y v i j :
  heat_map_at (heat_map_set hm x y v) i j
  = if decide (i = x ∧ j = y) then (λ _, v) <$> heat_map_at hm i j
    else heat_map_at hm i j.
Proof.
  unfold heat_map_at, heat_map_set. rewrite list_lookup_alter.
  destruct (decide (x = i)) as [->|Hx].
  - destruct (hm !! i) as [row|]; simpl; [|by case_decide].
    rewrite list_lookup_insert.
    destruct (decide (y = j)) as [->|Hy].
    + destruct (decide (j < length row)) as [Hlt|Hge].
      * rewrite !decide_True by done.
        destruct (lookup_lt_is_Some_2 row j Hlt) as [z ->]. done.
      * rewrite decide_False by lia. rewrite decide_True by done.
        rewrite (lookup_ge_None_2 row j) by lia. done.
    + rewrite !decide_False by (intros [? ?]; congruence). done.
  - rewrite decide_False by (intros [? ?]; congruence). done.
Qed.

Lemma heat_map_at_zeros H W x y :
  x < H → y < W → heat_map_at (heat_map_zeros H W) x y = Some 0%Z.
Proof.
  intros Hx Hy. unfold heat_map_at, heat_map_zeros.
  rewrite lookup_replicate_2 by done. simpl. by rewrite lookup_replicate_2.
Qed.

Lemma getitem2_cases means i j :
  (∃ m, getitem2 means i j = Ok m) ∨ getitem2 means i j = Raise IndexError.
Proof. unfold getitem2. destruct (_ ≫= _); eauto. Qed.

(** Indexing [means] succeeds exactly inside its extents. *)
Lemma getitem2_is_Ok means i j :
  matrix_shaped means →
  is_Ok (getitem2 means i j) ↔ i < m_rows means ∧ j < m_cols means.
Proof.
  intros [Hrows Hcols]. unfold getitem2. rewrite Forall_lookup in Hcols.
  destruct (m_data means !! i) as [row|] eqn:Hi; simpl.
  - pose proof (lookup_lt_Some _ _ _ Hi). specialize (Hcols _ _ Hi).
    destruct (row !! j) as [v|] eqn:Hj; simpl.
    + apply lookup_lt_Some in Hj. split; [lia|done].
    + apply lookup_ge_None in Hj. split; [done|lia].
  - apply lookup_ge_None in Hi. split; [done|lia].
Qed.

Section fill.
Context (means : Matrix) (W d : nat).

(** What the loops do in one cell. *)
Local Abbreviation cell_body :=
  (λ (p : nat * nat) (heat_map : HeatMap),
     match getitem2 means (W * p.1 + p.2) d with
     | Ok v => Ok (heat_map_set heat_map p.2 p.1 (int32_of_float v))
     | Raise e => Raise e
     end).

Lemma fill_heat_map_cells H hm :
  fill_heat_map means H W d hm = for_each cell_body (cells H W) hm.
Proof. unfold fill_heat_map, cells. by rewrite for_each_nested. Qed.

(** When every visited sample index is valid, the loop ends normally; the
    buffer keeps its shape, keeps the cells not visited, and holds in a
    visited cell the converted mean of that cell's sample. *)
Lemma for_each_cells_Ok cs : ∀ hm,
  (∀ y x, (y, x) ∈ cs → is_Ok (getitem2 means (W * y + x) d)) →
  ∃ hm', for_each cell_body cs hm = Ok hm'
    ∧ (∀ i j, is_Some (heat_map_at hm' i j) ↔ is_Some (heat_map_at hm i j))
    ∧ (∀ i j, (j, i) ∉ cs → heat_map_at hm' i j = heat_map_at hm i j)
    ∧ (∀ i j m, (j, i) ∈ cs → getitem2 means (W * j + i) d = Ok m →
                is_Some (heat_map_at hm i j) →
                heat_map_at hm' i j = Some (int32_of_float m)).
Proof.
  induction cs as [|[y x] cs IH]; intros hm Hok; simpl.
  - exists hm. split_and!; [done..|]. intros i j m Hin. by apply elem_of_nil in Hin.
  - pose proof (Hok y x ltac:(left)) as Hyx.
    destruct (getitem2 means (W * y + x) d) as [v|e] eqn:Ev; [|done].
    destruct (IH (heat_map_set hm x y (int32_of_float v))) as (hm' & Hrun & Hshape & Hkeep & Hval).
    { intros y' x' Hin. apply Hok. by right. }
    exists hm'. split; [done|]. split_and!.
    + intros i j. rewrite Hshape, heat_map_at_set.
      case_decide; [|done]. by rewrite fmap_is_Some.
    + intros i j Hnot. rewrite Hkeep by (intros ?; apply Hnot; by right).
      rewrite heat_map_at_set, decide_False; [done|].
      intros [-> ->]. apply Hnot. left.
    + intros i j m Hin Hm Hsome.
      destruct (decide ((j, i) ∈ cs)) as [Hcs|Hcs].
      * apply Hval; [done..|]. rewrite heat_map_at_set.
        case_decide; [|done]. by rewrite fmap_is_Some.
      * apply elem_of_cons in Hin as [[= -> ->]|]; [|done].
        rewrite Hkeep by done. rewrite heat_map_at_set, decide_True by done.
        destruct Hsome as [z ->]. simpl. congruence.
Qed.

(** When some visited sample index is out of range, the loop raises
    [IndexError]. *)
Lemma for_each_cells_Raise cs y x : ∀ hm,
  (y, x) ∈ cs → ¬ is_Ok (getitem2 means (W * y + x) d) →
  for_each cell_body cs hm = Raise IndexError.
Proof.
  induction cs as [|[y' x'] cs IH]; intros hm Hin Hbad; simpl.
  - by apply elem_of_nil in Hin.
  - destruct (getitem2_cases means (W * y' + x') d) as [[m Hm]|Hm]; rewrite Hm.
    + apply IH; [|done]. apply elem_of_cons in Hin as [[= -> ->]|]; [|done].
      rewrite Hm in Hbad. by destruct Hbad.
    + done.
Qed.
End fill.

(** ** One raster *)

Lemma fill_heat_map_Ok means H W d hm :
  (∀ x y, x < H → y < W → is_Ok (getitem2 means (W * y + x) d)) →
  (∀ x y, x < H → y < W → is_Some (heat_map_at hm x y)) →
  ∃ hm', fill_heat_map means H W d hm = Ok hm'
    ∧ (∀ x y, x < H → y < W → is_Some (heat_map_at hm' x y))
    ∧ ∀ x y m, x < H → y < W → getitem2 means (W * y + x) d = Ok m →
               heat_map_at hm' x y = Some (int32_of_float m).
Proof.
  intros Hok Hshape. rewrite fill_heat_map_cells.
  destruct (for_each_cells_Ok means W d (cells H W) hm) as (hm' & Hrun & Hsh & _ & Hval).
  { intros y x Hin. apply elem_of_cells in Hin as [??]. by apply Hok. }
  exists hm'. split; [done|]. split.
  - intros x y Hx Hy. apply Hsh. by apply Hshape.
  - intros x y m Hx Hy Hm. apply Hval; [|done|by apply Hshape].
    by apply elem_of_cells.
Qed.

Lemma fill_heat_map_Raise means H W d hm x y :
  x < H → y < W → ¬ is_Ok (getitem2 means (W * y + x) d) →
  fill_heat_map means H W d hm = Raise IndexError.
Proof.
  intros Hx Hy Hbad. rewrite fill_heat_map_cells.
  apply (for_each_cells_Raise means W d _ y x); [|done]. by apply elem_of_cells.
Qed.

Lemma pixel_make_grid_single H W hm ch x y :
  ch < 3 → pixel (make_grid_single H W hm) ch x y = heat_map_at hm x y.
Proof.
  intros Hch. unfold pixel, heat_map_at. simpl.
  destruct ch as [|[|[|ch]]]; [done..|lia].
Qed.

(** ** The loop over the latent dimensions *)

(** Without [save_images] the first turn of the loop returns. *)
Lemma heat_map_loop_return_first means H W filename d rest hm files :
  heat_map_loop false means H W filename (d :: rest) hm files
  = heat_map_loop false means H W filename [d] hm files.
Proof. simpl. by destruct (fill_heat_map means H W d hm). Qed.

(** With [save_images], a well-formed file name and every sample index of
    the first dimension valid, the first turn of the loop ends in
    [save_image], which refuses the [int32] raster. *)
Lemma heat_map_loop_save_raises means H W filename name extension d rest hm files :
  split_on "." filename = [name; extension] →
  (∀ x y, x < H → y < W → is_Ok (getitem2 means (W * y + x) d)) →
  (∀ x y, x < H → y < W → is_Some (heat_map_at hm x y)) →
  heat_map_loop true means H W filename (d :: rest) hm files = (Raise RuntimeError, files).
Proof.
  intros Hname Hok Hshape. simpl.
  destruct (fill_heat_map_Ok means H W d hm Hok Hshape) as (hm' & -> & _).
  unfold heat_map_name. by rewrite Hname.
Qed.

(** ** Float to [int32] *)

#[global] Instance fits_int32_dec q : Decision (fits_int32 q).
Proof. unfold fits_int32. apply _. Defined.

#[global] Instance means_fit_int32_dec means : Decision (means_fit_int32 means).
Proof. unfold means_fit_int32. apply _. Defined.

(** The integer part is the mean rounded toward zero. *)
Lemma integer_part_toward_zero q :
  (0 <= q → inject_Z (integer_part q) <= q ∧ q < inject_Z (integer_part q) + 1)%Q
  ∧ (q <= 0 → inject_Z (integer_part q) - 1 < q ∧ q <= inject_Z (integer_part q))%Q.
Proof.
  destruct q as [n d]. unfold integer_part, Qle, Qlt. simpl.
  pose proof (Z.quot_rem' n (Z.pos d)) as Hqr.
  pose proof (Z.rem_bound_pos n (Z.pos d)) as Hpos.
  pose proof (Z.rem_bound_pos_neg n (Z.pos d)) as Hneg.
  change (Z.pos (1 * 1)) with 1%Z.
  generalize dependent (Z.quot n (Z.pos d)). generalize dependent (Z.rem n (Z.pos d)).
  intros r Hpos Hneg q Hqr. split; intros Hn; lia.
Qed.

Lemma integer_part_inject_Z z : integer_part (inject_Z z) = z.
Proof. unfold integer_part. simpl. apply Z.quot_1_r. Qed.

(** Inside the 32-bit range the stored integer is the integer part. *)
Lemma int32_of_float_fits q : fits_int32 q → int32_of_float q = integer_part q.
Proof.
  unfold fits_int32, int32_of_float. intros [Hlo Hhi]. simpl.
  apply Z.leb_le in Hlo. apply Z.ltb_lt in Hhi. by rewrite Hlo, Hhi.
Qed.

(** Outside, it is -2^31. *)
Lemma int32_of_float_overflow q : ¬ fits_int32 q → int32_of_float q = (- 2 ^ 31)%Z.
Proof.
  unfold fits_int32, int32_of_float. intros Hno. simpl.
  destruct (Z.leb_spec (- 2 ^ 31) (integer_part q)); [|done].
  destruct (Z.ltb_spec (integer_part q) (2 ^ 31)); [|done].
  exfalso. apply Hno. lia.
Qed.

Lemma getitem2_fits means i j m :
  means_fit_int32 means → getitem2 means i j = Ok m → fits_int32 m.
Proof.
  unfold means_fit_int32, getitem2. intros Hfit Hm.
  destruct (m_data means !! i) as [row|] eqn:Hrow; simpl in Hm; [|done].
  destruct (row !! j) as [v|] eqn:Hv; [|done]. injection Hm as <-.
  rewrite Forall_lookup in Hfit. specialize (Hfit i row Hrow).
  rewrite Forall_lookup in Hfit. eauto.
Qed.

(** ** [generate_heat_maps] *)

Lemma heat_map_zeros_shape H W x y :
  x < H → y < W → is_Some (heat_map_at (heat_map_zeros H W) x y).
Proof. intros Hx Hy. rewrite heat_map_at_zeros by done. eauto. Qed.

Lemma getitem2_in_range means H W d :
  matrix_shaped means → d < m_cols means →
  (∀ x y, x < H → y < W → W * y + x < m_rows means) →
  ∀ x y, x < H → y < W → is_Ok (getitem2 means (W * y + x) d).
Proof. intros Hm Hd Hin x y Hx Hy. apply getitem2_is_Ok; auto. Qed.

Lemma is_Ok_exists {A} (r : result A) : is_Ok r → ∃ a, r = Ok a.
Proof. destruct r; [eauto|done]. Qed.

(** With [save_images]: [save_image] refuses the first raster, and nothing
    is written. *)
Lemma generate_heat_maps_save_RuntimeError means H W filename name extension :
  matrix_shaped means → 0 < m_cols means →
  split_on "." filename = [name; extension] →
  (∀ x y, x < H → y < W → W * y + x < m_rows means) →
  generate_heat_maps true means (H, W) filename = (Raise RuntimeError, []).
Proof.
  intros Hm Hd Hname Hin. unfold generate_heat_maps. simpl.
  destruct (m_cols means) as [|L] eqn:HL; [lia|]. simpl seq.
  apply (heat_map_loop_save_raises means H W filename name extension); [done| |].
  - apply getitem2_in_range; [done|lia|done].
  - apply heat_map_zeros_shape.
Qed.

Lemma square_in_range n N :
  n * n ≤ N → ∀ x y, x < n → y < n → n * y + x < N.
Proof. intros HN x y Hx Hy. nia. Qed.

(** Without [save_images]: the raster of latent dimension 0, and no file. *)
Lemma generate_heat_maps_return means H W filename :
  matrix_shaped means → 0 < m_cols means →
  (∀ x y, x < H → y < W → W * y + x < m_rows means) →
  ∃ grid, generate_heat_maps false means (H, W) filename = (Ok (Some grid), [])
    ∧ ∀ ch x y, ch < 3 → x < H → y < W →
        ∃ m, getitem2 means (W * y + x) 0 = Ok m
             ∧ pixel grid ch x y = Some (int32_of_float m).
Proof.
  intros Hm Hd Hin. unfold generate_heat_maps. simpl.
  destruct (m_cols means) as [|L] eqn:HL; [lia|]. simpl.
  pose proof (getitem2_in_range means H W 0 Hm ltac:(lia) Hin) as Hok.
  destruct (fill_heat_map_Ok means H W 0 (heat_map_zeros H W) Hok)
    as (hm' & -> & _ & Hval).
  { apply heat_map_zeros_shape. }
  eexists. split; [done|]. intros ch x y Hch Hx Hy.
  destruct (is_Ok_exists _ (Hok x y Hx Hy)) as [m Hmv].
  exists m. split; [done|]. rewrite pixel_make_grid_single by done. eauto.
Qed.

(** Without [save_images] only the first latent dimension is ever looked
    at: the method returns inside the first turn of the loop. *)
Lemma generate_heat_maps_return_stops_early means heat_map_size filename :
  generate_heat_maps false means heat_map_size filename
  = heat_map_loop false means heat_map_size.1 heat_map_size.2 filename
      (take 1 (seq 0 (m_cols means)))
      (heat_map_zeros heat_map_size.1 heat_map_size.2) [].
Proof.
  unfold generate_heat_maps. destruct (m_cols means) as [|L]; [done|].
  simpl seq. rewrite heat_map_loop_return_first. done.
Qed.

(** C5 (as amended). On a square grid of side [n], with at least [n*n]
    samples whose means have an integer part in the 32-bit range, the raster
    that the loops build for a latent dimension holds at tensor position
    [[x, y]] (the code's [x_posn] and [y_posn]: x counts the rows, y the
    columns) the integer part of the mean at sample index [y*n + x] of that
    dimension, whatever the buffer held before; without [save_images] the
    raster of dimension 0 is what the method returns. *)
Theorem generate_heat_maps_pixel_index means n filename :
  matrix_shaped means → means_fit_int32 means → n * n ≤ m_rows means →
  (∀ d heat_map, d < m_cols means →
     (∀ x y, x < n → y < n → is_Some (heat_map_at heat_map x y)) →
     ∃ heat_map', fill_heat_map means n n d heat_map = Ok heat_map'
       ∧ ∀ x y, x < n → y < n →
           ∃ m, getitem2 means (n * y + x) d = Ok m
                ∧ heat_map_at heat_map' x y = Some (integer_part m))
  ∧ (0 < m_cols means →
     ∃ grid, generate_heat_maps false means (n, n) filename = (Ok (Some grid), [])
       ∧ ∀ ch x y, ch < 3 → x < n → y < n →
           ∃ m, getitem2 means (n * y + x) 0 = Ok m
                ∧ pixel grid ch x y = Some (integer_part m)).
Proof.
  intros Hm Hfit Hn. pose proof (square_in_range n _ Hn) as Hin. split.
  - intros d hm Hd Hshape.
    pose proof (getitem2_in_range means n n d Hm Hd Hin) as Hok.
    destruct (fill_heat_map_Ok means n n d hm Hok Hshape) as (hm' & Hrun & _ & Hval).
    exists hm'. split; [done|]. intros x y Hx Hy.
    destruct (is_Ok_exists _ (Hok x y Hx Hy)) as [m Hmv].
    exists m. split; [done|].
    rewrite (Hval x y m Hx Hy Hmv). f_equal. apply int32_of_float_fits.
    by eapply getitem2_fits.
  - intros Hd.
    destruct (generate_heat_maps_return means n n filename Hm Hd Hin) as (grid & Hrun & Hpix).
    exists grid. split; [done|]. intros ch x y Hch Hx Hy.
    destruct (Hpix ch x y Hch Hx Hy) as (m & Hmv & ->).
    exists m. split; [done|]. f_equal. apply int32_of_float_fits.
    by eapply getitem2_fits.
Qed.

(** C5's counterexample.  On a 1x1 grid, the only pixel of the raster for a
    mean of 1/2 holds 0, not the scalar value.  A mean of 3000000000, whose
    integer part does not fit in 32 bits, is stored as -2147483648.  On the
    4x4 grid over the means 0, ..., 15, row 0 of the raster reads 0, 4, 8,
    12: the pixel in row 0 and column 1 holds 4, so the claim's [4*y + x]
    fails when x is counted along the columns, as for the pixels of an
    image.  On a 1x2 grid, two samples ([height*width]) are not enough: the
    call raises [IndexError]. *)
Lemma heat_map_pixel_drops_fraction :
  (∃ grid,
     generate_heat_maps false means_half (1, 1) "imgs/heatmap.png" = (Ok (Some grid), [])
     ∧ getitem2 means_half (1 * 0 + 0) 0 = Ok (1 # 2)
     ∧ pixel grid 0 0 0 = Some 0%Z
     ∧ ¬ (inject_Z 0 == 1 # 2)%Q)
  ∧ (∃ grid,
       generate_heat_maps false means_overflow (1, 1) "imgs/heatmap.png"
       = (Ok (Some grid), [])
       ∧ getitem2 means_overflow (1 * 0 + 0) 0 = Ok 3000000000%Q
       ∧ pixel grid 0 0 0 = Some (-2147483648)%Z)
  ∧ (∃ grid,
       generate_heat_maps false means_0_15 (4, 4) "imgs/heatmap.png" = (Ok (Some grid), [])
       ∧ t_data grid !! 0 ≫= (λ rows, rows !! 0) = Some [0; 4; 8; 12]%Z
       ∧ pixel grid 0 0 1 = Some 4%Z
       ∧ Z.of_nat (4 * 0 + 1) ≠ 4%Z)
  ∧ m_rows means_two_samples = 1 * 2
  ∧ generate_heat_maps false means_two_samples (1, 2) "imgs/heatmap.png"
    = (Raise IndexError, []).
Proof.
  split_and!.
  - eexists. split_and!; [vm_compute; reflexivity..|]. vm_compute. intros [=].
  - eexists. split_and!; vm_compute; reflexivity.
  - eexists. split_and!; [vm_compute; reflexivity..|]. vm_compute. intros [=].
  - reflexivity.
  - vm_compute. reflexivity.
Qed.

Lemma matrix_shaped_means_0_15 : matrix_shaped means_0_15.
Proof. split; [reflexivity|]. vm_compute. repeat constructor. Defined.

Lemma means_0_15_fit : means_fit_int32 means_0_15.
Proof. apply (bool_decide_unpack _). vm_compute. exact I. Defined.

Lemma getitem2_means_0_15 i :
  i < 16 → getitem2 means_0_15 i 0 = Ok (inject_Z (Z.of_nat i)).
Proof.
  intros Hi. do 16 (destruct i as [|i]; [reflexivity|]). lia.
Qed.

(** The 4x4 grid over the means 0, ..., 15: position [[x, y]] of the
    returned raster holds [4*y + x]. *)
Lemma generate_heat_maps_pixel_index_witness :
  matrix_shaped means_0_15 ∧ means_fit_int32 means_0_15 ∧ 4 * 4 ≤ m_rows means_0_15
  ∧ ∃ grid,
      generate_heat_maps false means_0_15 (4, 4) "imgs/heatmap.png" = (Ok (Some grid), [])
      ∧ ∀ x y, x < 4 → y < 4 → pixel grid 0 x y = Some (Z.of_nat (4 * y + x)).
Proof.
  assert (4 * 4 ≤ m_rows means_0_15) as Hn by (simpl; lia).
  split; [exact matrix_shaped_means_0_15|]. split; [exact means_0_15_fit|].
  split; [exact Hn|].
  destruct (generate_heat_maps_pixel_index means_0_15 4 "imgs/heatmap.png"
              matrix_shaped_means_0_15 means_0_15_fit Hn)
    as [_ Hret].
  destruct Hret as (grid & Hrun & Hpix); [simpl; lia|].
  exists grid. split; [exact Hrun|]. intros x y Hx Hy.
  destruct (Hpix 0 x y) as (m & Hm & ->); [lia|done..|].
  rewrite getitem2_means_0_15 in Hm by lia.
  injection Hm as <-. by rewrite integer_part_inject_Z.
Defined.

(** C6: what the code does on one sample of two latent dimensions (means 1
    and 2) without [save_images]: the raster of dimension 0 is returned, and
    the raster of dimension 1 is never produced. *)
Theorem generate_heat_maps_returns_first_dimension_only :
  m_cols means_two_dims = 2
  ∧ generate_heat_maps false means_two_dims (1, 1) "imgs/heatmap.png"
    = (Ok (Some (mkTensor3 3 1 1 [[[1]]; [[1]]; [[1]]]%Z)), []).
Proof. split; vm_compute; reflexivity. Qed.

(** C7's counterexample: a 3x2 grid needs six samples by the claim, yet
    with five samples the call raises nothing and returns a raster. *)
Lemma generate_heat_maps_five_samples_no_error :
  m_rows means_five < 3 * 2
  ∧ ∃ grid, generate_heat_maps false means_five (3, 2) "imgs/heatmap.png"
            = (Ok (Some grid), []).
Proof. split; [simpl; lia|]. eexists. vm_compute. reflexivity. Qed.

(** C7 (as amended). On a square grid of side at least one and with at
    least one latent dimension, fewer than [height*width] samples make
    [generate_heat_maps] fail: indexing [means] raises [IndexError] while
    the first raster is being filled, so nothing has been saved nor is
    anything returned. *)
Theorem generate_heat_maps_square_too_few_samples save_images means n filename :
  matrix_shaped means → 0 < n → 0 < m_cols means → m_rows means < n * n →
  generate_heat_maps save_images means (n, n) filename = (Raise IndexError, []).
Proof.
  intros Hm Hn Hd Hfew. unfold generate_heat_maps. simpl.
  destruct (m_cols means) as [|L] eqn:HL; [lia|]. simpl.
  rewrite (fill_heat_map_Raise means n n 0 _ (n - 1) (n - 1)); [done|lia|lia|].
  rewrite getitem2_is_Ok by done. nia.
Qed.

Lemma matrix_shaped_means_five : matrix_shaped means_five.
Proof. split; [reflexivity|]. repeat constructor. Defined.

Lemma generate_heat_maps_square_too_few_samples_witness :
  matrix_shaped means_five ∧ m_rows means_five < 3 * 3
  ∧ generate_heat_maps true means_five (3, 3) "imgs/heatmap.png" = (Raise IndexError, []).
Proof.
  split; [exact matrix_shaped_means_five|]. split; [simpl; lia|].
  apply (generate_heat_maps_square_too_few_samples true means_five 3 "imgs/heatmap.png"
           matrix_shaped_means_five); simpl; lia.
Defined.

(** C10 (as amended). The buffer holds 32-bit integers.  Whenever the
    loops visit valid sample indices only and the means have an integer
    part in the 32-bit range, every pixel of the buffer that the loops fill
    for a latent dimension, and every pixel of the raster returned without
    [save_images], is an integer [t] obtained from the real-valued mean [m]
    it was written from by dropping the fractional part, that is
    [t <= m < t + 1] for [m >= 0] and [t - 1 < m <= t] for [m <= 0]. *)
Theorem heat_map_pixels_are_truncated_means means H W filename :
  matrix_shaped means → means_fit_int32 means →
  (∀ x y, x < H → y < W → W * y + x < m_rows means) →
  (∀ d heat_map, d < m_cols means →
     (∀ x y, x < H → y < W → is_Some (heat_map_at heat_map x y)) →
     ∃ heat_map', fill_heat_map means H W d heat_map = Ok heat_map'
       ∧ ∀ x y, x < H → y < W →
           ∃ (m : Q) (t : Z),
             getitem2 means (W * y + x) d = Ok m ∧ heat_map_at heat_map' x y = Some t
             ∧ (0 <= m → inject_Z t <= m ∧ m < inject_Z t + 1)%Q
             ∧ (m <= 0 → inject_Z t - 1 < m ∧ m <= inject_Z t)%Q)
  ∧ (0 < m_cols means →
     ∃ grid, generate_heat_maps false means (H, W) filename = (Ok (Some grid), [])
       ∧ ∀ ch x y, ch < 3 → x < H → y < W →
           ∃ (m : Q) (t : Z),
             getitem2 means (W * y + x) 0 = Ok m ∧ pixel grid ch x y = Some t
             ∧ (0 <= m → inject_Z t <= m ∧ m < inject_Z t + 1)%Q
             ∧ (m <= 0 → inject_Z t - 1 < m ∧ m <= inject_Z t)%Q).
Proof.
  intros Hm Hfit Hin. split.
  - intros d hm Hd Hshape.
    pose proof (getitem2_in_range means H W d Hm Hd Hin) as Hok.
    destruct (fill_heat_map_Ok means H W d hm Hok Hshape) as (hm' & Hrun & _ & Hval).
    exists hm'. split; [done|]. intros x y Hx Hy.
    destruct (is_Ok_exists _ (Hok x y Hx Hy)) as [m Hmv].
    exists m, (integer_part m). split; [done|]. split.
    + rewrite (Hval x y m Hx Hy Hmv). f_equal. apply int32_of_float_fits.
      by eapply getitem2_fits.
    + split; apply integer_part_toward_zero.
  - intros Hd.
    destruct (generate_heat_maps_return means H W filename Hm Hd Hin) as (grid & Hrun & Hpix).
    exists grid. split; [done|]. intros ch x y Hch Hx Hy.
    destruct (Hpix ch x y Hch Hx Hy) as (m & Hmv & ->).
    exists m, (integer_part m). split; [done|]. split.
    + f_equal. apply int32_of_float_fits. by eapply getitem2_fits.
    + split; apply integer_part_toward_zero.
Qed.

(** C10's counterexample: a mean of 3000000000 is written as -2147483648,
    which is not its integer part: the pixel is not within one of the
    mean. *)
Lemma heat_map_pixel_overflows :
  ∃ grid,
    generate_heat_maps false means_overflow (1, 1) "imgs/heatmap.png" = (Ok (Some grid), [])
    ∧ getitem2 means_overflow (1 * 0 + 0) 0 = Ok 3000000000%Q
    ∧ pixel grid 0 0 0 = Some (-2147483648)%Z
    ∧ ¬ (inject_Z (-2147483648) <= 3000000000
         ∧ 3000000000 < inject_Z (-2147483648) + 1)%Q.
Proof.
  eexists. split_and!; [vm_compute; reflexivity..|].
  intros [_ Hlt]. vm_compute in Hlt. discriminate Hlt.
Qed.

(** ** The metric reader and the order of the rows *)

Lemma read_avg_kl_from_file_empty : read_avg_kl_from_file [] = Raise IndexError.
Proof. reflexivity. Qed.

(** The reader returns the last record without its first field. *)
Lemma read_avg_kl_from_file_last rows last_line :
  read_avg_kl_from_file (rows ++ [last_line]) = Ok (drop 1 last_line).
Proof.
  unfold read_avg_kl_from_file. rewrite length_app. simpl.
  replace (length rows + 1 - 1) with (length rows) by lia.
  by rewrite drop_app_length.
Qed.

(** The spec's own example: the keys 0.1, 0.9, 0.5 put dimension 1 first,
    then dimension 2, then dimension 0. *)
Lemma sort_latent_samples_example :
  sort_latent_samples ["0.1"; "0.9"; "0.5"] [latent_line 0; latent_line 1; latent_line 2]
  = Ok [latent_line 1; latent_line 2; latent_line 0].
Proof. vm_compute. reflexivity. Qed.

(** C1: what the code does for the scores 10.0 (dimension 0) and 9.0
    (dimension 1).  The keys are the strings of the log, compared character
    by character, so the row of dimension 1 comes first although its score is
    the smaller number. *)
Theorem sort_latent_samples_compares_strings :
  read_avg_kl_from_file [["100"; "10.0"; "9.0"]] = Ok ["10.0"; "9.0"]
  ∧ sort_latent_samples ["10.0"; "9.0"] [latent_line 0; latent_line 1]
    = Ok [latent_line 1; latent_line 0]
  ∧ decimal_value "10.0" = Some 10.0%Q
  ∧ decimal_value "9.0" = Some 9.0%Q
  ∧ (9.0 < 10.0)%Q.
Proof. split_and!; vm_compute; reflexivity. Qed.

(** Equal scores: the comparison of the tuples goes on to the tensors,
    whose truth value torch refuses, so the call raises instead of keeping
    the original order. *)
Lemma sort_latent_samples_tie_raises :
  sort_latent_samples ["0.5"; "0.5"] [latent_line 0; latent_line 1]
  = Raise RuntimeError.
Proof. vm_compute. reflexivity. Qed.

(** ** The canvas of the all-dimensions view *)

Lemma pic_size_foldl_DrawText (f : string → string) labels : ∀ canvas,
  pic_size (foldl (λ canvas label, DrawText canvas (f label)) canvas labels)
  = pic_size canvas.
Proof. induction labels as [|l labels IH]; intros canvas; simpl; [done|]. by rewrite IH. Qed.

(** For every width below 4096 the double computation [int(1.3 * w)] is the
    integer part of 13w/10. *)
Lemma int_1_3_times_small w :
  (0 ≤ w < 4096)%Z → int_1_3_times w = (13 * w / 10)%Z.
Proof.
  intros Hw.
  assert (forallb (λ w, int_1_3_times w =? 13 * w / 10)%Z (seqZ 0 4096) = true) as Hall
    by (vm_compute; reflexivity).
  rewrite forallb_forall in Hall. apply Z.eqb_eq, Hall.
  apply list_elem_of_In, elem_of_seqZ. lia.
Qed.

(** C2: the size of the canvas, for every grid and every list of labels.
    [Image.new] receives [(height, new_width)] where PIL expects (width,
    height): the canvas is as wide as the grid is high, and its height is
    130% of the grid's width. *)
Theorem traversal_images_with_text_size tensor sorted_avg_kl_list :
  pic_width (traversal_images_with_text tensor sorted_avg_kl_list)
  = Z.of_nat (t_rows tensor)
  ∧ pic_height (traversal_images_with_text tensor sorted_avg_kl_list)
    = int_1_3_times (Z.of_nat (t_cols tensor)).
Proof.
  unfold pic_width, pic_height, traversal_images_with_text.
  rewrite (pic_size_foldl_DrawText (λ l, "KL = " +:+ l)). done.
Qed.

(** Three traversals of eight 32x32 images with padding 2 make a grid 274
    wide and 104 high; the canvas is 104 wide and 356 high. *)
Lemma traversal_images_with_text_size_example :
  pic_size (traversal_images_with_text (mkTensor3 3 104 274 []) ["0.9"; "0.5"; "0.1"])
  = (104, 356)%Z.
Proof. vm_compute. reflexivity. Qed.

Lemma matrix_shaped_means_fractions : matrix_shaped means_fractions.
Proof. split; [reflexivity|]. repeat constructor. Defined.

Lemma means_fractions_fit : means_fit_int32 means_fractions.
Proof. apply (bool_decide_unpack _). vm_compute. exact I. Defined.

(** The means 7/10 and -3/2 are stored as 0 and -1; the raster returned is
    that of the first. *)
Lemma heat_map_pixels_are_truncated_means_witness :
  matrix_shaped means_fractions ∧ means_fit_int32 means_fractions
  ∧ (∃ heat_map', fill_heat_map means_fractions 1 1 1 [[0%Z]] = Ok heat_map'
                  ∧ heat_map' = [[(-1)%Z]])
  ∧ (∃ grid,
       generate_heat_maps false means_fractions (1, 1) "imgs/heatmap.png"
       = (Ok (Some grid), [])
       ∧ grid = mkTensor3 3 1 1 [[[0]]; [[0]]; [[0]]]%Z).
Proof.
  split; [exact matrix_shaped_means_fractions|]. split; [exact means_fractions_fit|].
  destruct (heat_map_pixels_are_truncated_means means_fractions 1 1 "imgs/heatmap.png"
              matrix_shaped_means_fractions means_fractions_fit)
    as [Hfill Hret].
  { intros x y Hx Hy. simpl. lia. }
  split.
  - destruct (Hfill 1 [[0%Z]]) as (hm' & Hrun & _).
    + simpl. lia.
    + intros [|x] [|y] Hx Hy; [simpl; eauto|lia..].
    + exists hm'. split; [exact Hrun|].
      vm_compute in Hrun. by injection Hrun as <-.
  - destruct Hret as (grid & Hrun & _); [simpl; lia|].
    exists grid. split; [exact Hrun|].
    vm_compute in Hrun. by injection Hrun as <-.
Defined.

(** C8's counterexample: on a log without a record the reader raises
    [IndexError]; no exception that the reader raises there is named
    [MetricParseError]. *)
Lemma read_avg_kl_from_file_empty_not_MetricParseError :
  ¬ ∃ e, read_avg_kl_from_file [] = Raise e ∧ exn_name e = "MetricParseError".
Proof. intros (e & He & Hname). injection He as <-. discriminate Hname. Qed.

(** ** The orchestrator *)

Section Visualizer_properties.
Context {SamplerState Images : Type}.
Context (save_images : bool) (latent_dim : nat)
  (traverse_line : LatentTraverser SamplerState → nat → nat
                   → result Matrix * LatentTraverser SamplerState)
  (traverse_grid : LatentTraverser SamplerState → nat * nat
                   → result Matrix * LatentTraverser SamplerState)
  (decode_latents : Matrix → result Images)
  (make_grid : Images → nat → Tensor3 Q)
  (kl_label : string → result string).

(** C8 (as amended). With a log file that holds no record, reading the
    scores fails with Python's [IndexError], raised at [rows[-1:][0]], and
    the all-dimensions view fails with that [IndexError], before it asks the
    traverser for anything and without writing an image: the world is as it
    was. *)
Theorem all_latent_traversals_empty_log size filename lt files :
  read_avg_kl_from_file [] = Raise IndexError
  ∧ all_latent_traversals save_images latent_dim traverse_line decode_latents make_grid
      kl_label size filename (mkWorld lt (Some []) files)
    = (Raise IndexError, mkWorld lt (Some []) files).
Proof. done. Qed.

(** C9. Whenever the prior-sampling call returns, [samples] leaves the
    flag [sample_prior] as it found it, whatever the decoder does next; in
    particular, when decoding raises, the call raises that exception with
    the flag already restored.  The traverser that the prior-sampling call
    runs on has the flag set. *)
Theorem samples_restores_sample_prior size filename (w : World SamplerState)
    prior_samples lt' :
  traverse_grid (set_sample_prior true (latent_traverser w)) size = (Ok prior_samples, lt') →
  sample_prior (set_sample_prior true (latent_traverser w)) = true
  ∧ sample_prior (latent_traverser
       (samples save_images traverse_grid decode_latents make_grid size filename w).2)
    = sample_prior (latent_traverser w)
  ∧ ∀ e, decode_latents prior_samples = Raise e →
      (samples save_images traverse_grid decode_latents make_grid size filename w).1
      = Raise e.
Proof.
  intros Hgrid. unfold samples. rewrite Hgrid. split; [done|]. split.
  - destruct (decode_latents prior_samples); [destruct save_images|]; done.
  - intros e ->. done.
Qed.

(** When the prior-sampling call itself raises, the flag is not put back:
    it stays as that call left it. *)
Lemma samples_sampling_fails size filename (w : World SamplerState) e lt' :
  traverse_grid (set_sample_prior true (latent_traverser w)) size = (Raise e, lt') →
  samples save_images traverse_grid decode_latents make_grid size filename w
  = (Raise e, with_traverser w lt').
Proof. intros Hgrid. unfold samples. by rewrite Hgrid. Qed.
End Visualizer_properties.

(** A call in which decoding fails: the flag was off before, is off after,
    and the decoder's exception reaches the caller. *)
Lemma samples_restores_sample_prior_witness :
  traverse_grid_stub (set_sample_prior true (mkLatentTraverser false ())) (8, 8)
  = (Ok (mkMatrix 0 0 []), mkLatentTraverser true ())
  ∧ sample_prior (latent_traverser
       (samples false traverse_grid_stub decode_fails make_grid_stub (8, 8)
          "imgs/samples.png" (mkWorld (mkLatentTraverser false ()) None [])).2)
    = sample_prior (latent_traverser (mkWorld (mkLatentTraverser false ()) None []))
  ∧ (samples false traverse_grid_stub decode_fails make_grid_stub (8, 8)
       "imgs/samples.png" (mkWorld (mkLatentTraverser false ()) None [])).1
    = Raise RuntimeError.
Proof.
  split; [reflexivity|].
  destruct (samples_restores_sample_prior false traverse_grid_stub decode_fails
              make_grid_stub (8, 8) "imgs/samples.png"
              (mkWorld (mkLatentTraverser false ()) None [])
              (mkMatrix 0 0 []) (mkLatentTraverser true ()) eq_refl)
    as (_ & Hflag & Hraise).
  split; [exact Hflag|exact (Hraise RuntimeError eq_refl)].
Defined.

(** * Further properties *)

(** ** [reorder_img]: where the blocks go *)

Section reorder_moves.
Context {px : Type} (zero : px).
Implicit Types t dst src : Tensor3 px.

(** Inside the destination slice a block assignment stores the source's
    pixel that lies [b - a] further along the axis. *)
Lemma setitem_block_moved by_row dst src a b len t' :
  well_shaped dst → well_shaped src → size dst = size src →
  (0 ≤ a)%Z → (0 ≤ b)%Z → (0 ≤ len)%Z →
  (a + len ≤ Z.of_nat (axis_len by_row dst))%Z →
  (b + len ≤ Z.of_nat (axis_len by_row dst))%Z →
  setitem_block by_row dst src a b len = Ok t' →
  ∀ c r k, (a ≤ Z.of_nat (axis_coord by_row r k) < a + len)%Z →
           pixel t' c r k
           = pixel src c (shift_coord by_row (b - a) r k).1 (shift_coord by_row (b - a) r k).2.
Proof.
  intros Hd Hs Hsz Ha Hb Hl Han Hbn. unfold setitem_block, axis_len in *.
  assert (t_chan dst = t_chan src ∧ t_rows dst = t_rows src
          ∧ t_cols dst = t_cols src) as (Hc & Hr & Hk).
  { unfold size in Hsz. by simplify_eq. }
  rewrite <-Hr, <-Hk.
  rewrite !slice_range_inside by (destruct by_row; lia).
  rewrite decide_True by auto. intros [= <-] c r k Hin.
  pose proof Hd as [Hdl _]. pose proof Hs as [Hsl _].
  unfold pixel, shift_coord; simpl. rewrite lookup_zip_with.
  destruct (t_data src !! c) as [sch|] eqn:Hsc; simpl.
  2:{ destruct (t_data dst !! c); destruct by_row; simpl; by rewrite ?Hsc. }
  destruct (t_data dst !! c) as [dch|] eqn:Hdc; simpl.
  2:{ apply lookup_ge_None in Hdc. apply lookup_lt_Some in Hsc. lia. }
  destruct (well_shaped_lookup _ _ _ Hd Hdc) as [Hdr Hdk].
  destruct (well_shaped_lookup _ _ _ Hs Hsc) as [Hsr Hsk].
  destruct by_row; simpl in *.
  - rewrite lookup_splice_inside by lia. do 2 f_equal. lia.
  - rewrite lookup_zip_with.
    destruct (sch !! r) as [srow|] eqn:Hsrow; simpl.
    2:{ destruct (dch !! r); done. }
    destruct (dch !! r) as [drow|] eqn:Hdrow; simpl.
    2:{ apply lookup_ge_None in Hdrow. apply lookup_lt_Some in Hsrow. lia. }
    rewrite lookup_splice_inside.
    + f_equal. lia.
    + rewrite (Hdk _ _ Hdrow). lia.
    + rewrite (Hsk _ _ Hsrow). lia.
    + lia.
Qed.

(** Blocks of different indices do not meet. *)
Lemma in_block_disjoint dim padding i j n :
  (0 ≤ padding)%Z → (0 ≤ dim)%Z →
  in_block dim padding i n → in_block dim padding j n → i = j.
Proof. unfold in_block. intros Hp Hd Hi Hj. nia. Qed.

(** The loop, for blocks inside the image: a pixel of destination block
    [i0 + j] ends up with the source's pixel at the same offset in block
    [reorder[j]]; a pixel of no destination block is left alone. *)
Lemma reorder_loop_moves orig new by_row h w p N reorder :
  ∀ i0 (σ : gmap nat (Tensor3 px)) src dst,
  orig ≠ new → σ !! orig = Some src → σ !! new = Some dst →
  well_shaped src → well_shaped dst → size dst = size src →
  (0 ≤ p)%Z → (0 ≤ axis_dim by_row h w)%Z → (0 ≤ i0)%Z →
  Forall (λ old, (0 ≤ old < N)%Z) reorder →
  (i0 + Z.of_nat (length reorder) ≤ N)%Z →
  (N * (p + axis_dim by_row h w) ≤ Z.of_nat (axis_len by_row src))%Z →
  ∃ σ' dst',
    reorder_loop zero orig new by_row h w p i0 reorder σ = (Ok (), σ')
    ∧ σ' !! new = Some dst'
    ∧ ∀ c r k,
        (∀ (j : nat) old, reorder !! j = Some old →
           in_block (axis_dim by_row h w) p (i0 + Z.of_nat j) (axis_coord by_row r k) →
           pixel dst' c r k
           = pixel src c
               (shift_coord by_row ((old - (i0 + Z.of_nat j)) * (p + axis_dim by_row h w)) r k).1
               (shift_coord by_row ((old - (i0 + Z.of_nat j)) * (p + axis_dim by_row h w)) r k).2)
        ∧ ((∀ j : nat, j < length reorder →
              ¬ in_block (axis_dim by_row h w) p (i0 + Z.of_nat j) (axis_coord by_row r k)) →
           pixel dst' c r k = pixel dst c r k).
Proof.
  induction reorder as [|old rest IH];
    intros i0 σ src dst Hne Ho Hn Hws Hwd Hsz Hp Hd Hi0 Hall Hlen HN.
  - exists σ, dst. simpl. split_and!; [done..|]. intros c r k. split; [|done].
    intros j old' Hj. done.
  - simpl. rewrite (lookup_total_correct _ _ _ Hn), (lookup_total_correct _ _ _ Ho).
    fold (axis_dim by_row h w).
    apply Forall_cons in Hall as [Hold Hall]. simpl in Hlen.
    pose proof (axis_len_size by_row _ _ Hsz) as Hax.
    set (dim := axis_dim by_row h w) in *.
    set (a := (i0 * (p + dim) + p)%Z).
    set (b := (old * (p + dim) + p)%Z).
    assert (0 ≤ a ∧ a + dim ≤ Z.of_nat (axis_len by_row dst))%Z as [Ha Han]
      by (unfold a; nia).
    assert (0 ≤ b ∧ b + dim ≤ Z.of_nat (axis_len by_row dst))%Z as [Hb Hbn]
      by (unfold b; nia).
    destruct (setitem_block _ _ _ _ _ _) as [t'|e] eqn:E.
    2:{ exfalso. cut (is_Ok (@Raise (Tensor3 px) e)); [done|]. rewrite <-E.
        by apply setitem_block_inside_Ok. }
    destruct (setitem_block_Ok _ _ _ _ _ _ _ Hwd Hws Hsz E) as (Hwt & Hst' & Hout).
    pose proof (setitem_block_moved _ _ _ _ _ _ _ Hwd Hws Hsz Ha Hb Hd Han Hbn E) as Hmv.
    destruct (IH (i0 + 1)%Z (<[new:=t']> σ) src t') as (σ' & dst' & Hrun & Hl' & Hpix);
      try done.
    { by rewrite lookup_insert_ne. }
    { by rewrite lookup_insert_eq. }
    { congruence. }
    { lia. }
    { lia. }
    exists σ', dst'. split_and!; [done..|]. intros c r k.
    destruct (Hpix c r k) as [Hblk Hkeep]. split.
    + intros [|j] old' Hj Hin; simpl in Hj.
      * injection Hj as <-. rewrite Z.add_0_r in *.
        rewrite Hkeep.
        -- rewrite Hmv by (unfold in_block in Hin; unfold a; lia).
           replace (b - a)%Z with ((old - i0) * (p + dim))%Z by (unfold a, b; lia).
           done.
        -- intros j' Hj' Hin'.
           pose proof (in_block_disjoint _ _ _ _ _ Hp Hd Hin Hin'). lia.
      * replace (i0 + Z.of_nat (S j))%Z with (i0 + 1 + Z.of_nat j)%Z in * by lia.
        by apply Hblk.
    + intros Hnone. rewrite Hkeep.
      * apply Hout. unfold in_slice. rewrite slice_range_inside by lia.
        specialize (Hnone 0%nat ltac:(simpl; lia)). rewrite Z.add_0_r in Hnone.
        unfold in_block in Hnone. unfold a. lia.
      * intros j Hj. specialize (Hnone (S j) ltac:(simpl; lia)).
        by replace (i0 + Z.of_nat (S j))%Z with (i0 + 1 + Z.of_nat j)%Z in Hnone by lia.
Qed.
End reorder_moves.

Section reorder_img_moves.
Context {px : Type} (zero : px).
Implicit Types t dst src : Tensor3 px.

(** [reorder_img] on blocks inside the image, with all that the
    compositions below need. *)
Lemma reorder_img_inside (σ : gmap nat (Tensor3 px)) orig_img t reorder by_row
    c h w padding N :
  σ !! orig_img = Some t → well_shaped t →
  (0 ≤ padding)%Z → (0 ≤ axis_dim by_row h w)%Z →
  Forall (λ old_idx, (0 ≤ old_idx < N)%Z) reorder →
  (Z.of_nat (length reorder) ≤ N)%Z →
  (N * (padding + axis_dim by_row h w) ≤ Z.of_nat (axis_len by_row t))%Z →
  ∃ l σ' out,
    reorder_img zero orig_img reorder by_row (c, h, w) padding σ = (Ok l, σ')
    ∧ σ' !! l = Some out ∧ well_shaped out ∧ size out = size t
    ∧ ∀ (new_idx : nat) old_idx ch r k,
        reorder !! new_idx = Some old_idx →
        in_block (axis_dim by_row h w) padding (Z.of_nat new_idx) (axis_coord by_row r k) →
        pixel out ch r k
        = pixel t ch
            (shift_coord by_row
               ((old_idx - Z.of_nat new_idx) * (padding + axis_dim by_row h w)) r k).1
            (shift_coord by_row
               ((old_idx - Z.of_nat new_idx) * (padding + axis_dim by_row h w)) r k).2.
Proof.
  intros Ho Hwf Hp Hd Hall Hlen HN. unfold reorder_img, torch_zeros.
  rewrite (lookup_total_correct _ _ _ Ho).
  pose proof (fresh_reference σ) as Hfresh.
  set (l0 := fresh (dom σ)) in *.
  assert (orig_img ≠ l0) as Hne by congruence.
  set (σ1 := <[l0:=zeros zero (size t)]> σ).
  assert (σ1 !! orig_img = Some t) as Ho1 by (unfold σ1; by rewrite lookup_insert_ne).
  assert (σ1 !! l0 = Some (zeros zero (size t))) as Hn1
    by (unfold σ1; by rewrite lookup_insert_eq).
  pose proof (well_shaped_zeros zero (size t)) as Hwz.
  pose proof (size_zeros zero (size t)) as Hsz.
  destruct (reorder_loop_moves zero orig_img l0 by_row h w padding N reorder
              0 σ1 t _ Hne Ho1 Hn1 Hwf Hwz Hsz Hp Hd)
    as (σ' & out & Hrun & Hout & Hpix); [lia|done|lia|done|].
  destruct (reorder_loop_frame zero _ _ _ _ _ _ _ _ _ _ _ _ _ Hne Ho1 Hn1 Hwf Hwz Hsz Hrun)
    as (_ & out' & Hout' & Hwo & Hso & _).
  assert (out' = out) as -> by congruence.
  rewrite Hrun. exists l0, σ', out. split_and!; [done..|].
  intros new_idx old_idx ch r k Hidx Hin.
  destruct (Hpix ch r k) as [Hblk _].
  specialize (Hblk new_idx old_idx Hidx). rewrite Z.add_0_l in Hblk. by apply Hblk.
Qed.

(** X1. For a list [reorder] of indices below [N] on an image that holds
    [N] blocks along the reordered axis, [reorder_img] returns, and every
    pixel of block [new_idx] of the result is the input's pixel at the same
    offset in block [reorder[new_idx]]. *)
Theorem reorder_img_moves_blocks (σ : gmap nat (Tensor3 px)) orig_img t reorder by_row
    c h w padding N :
  σ !! orig_img = Some t → well_shaped t →
  (0 ≤ padding)%Z → (0 ≤ axis_dim by_row h w)%Z →
  Forall (λ old_idx, (0 ≤ old_idx < N)%Z) reorder →
  (Z.of_nat (length reorder) ≤ N)%Z →
  (N * (padding + axis_dim by_row h w) ≤ Z.of_nat (axis_len by_row t))%Z →
  ∃ l σ' out,
    reorder_img zero orig_img reorder by_row (c, h, w) padding σ = (Ok l, σ')
    ∧ σ' !! l = Some out
    ∧ ∀ (new_idx : nat) old_idx ch r k,
        reorder !! new_idx = Some old_idx →
        in_block (axis_dim by_row h w) padding (Z.of_nat new_idx) (axis_coord by_row r k) →
        pixel out ch r k
        = pixel t ch
            (shift_coord by_row
               ((old_idx - Z.of_nat new_idx) * (padding + axis_dim by_row h w)) r k).1
            (shift_coord by_row
               ((old_idx - Z.of_nat new_idx) * (padding + axis_dim by_row h w)) r k).2.
Proof.
  intros Ho Hwf Hp Hd Hall Hlen HN.
  destruct (reorder_img_inside σ orig_img t reorder by_row c h w padding N
              Ho Hwf Hp Hd Hall Hlen HN) as (l & σ' & out & Hrun & Hout & _ & _ & Hpix).
  by exists l, σ', out.
Qed.

Lemma shift_coord_in_block by_row dim padding (i : nat) j r k :
  (0 ≤ padding)%Z → (0 ≤ dim)%Z → (0 ≤ j)%Z →
  in_block dim padding (Z.of_nat i) (axis_coord by_row r k) →
  in_block dim padding j
    (axis_coord by_row
       (shift_coord by_row ((j - Z.of_nat i) * (padding + dim)) r k).1
       (shift_coord by_row ((j - Z.of_nat i) * (padding + dim)) r k).2).
Proof.
  intros Hp Hd Hj. unfold in_block, shift_coord, axis_coord.
  destruct by_row; simpl; intros Hin; nia.
Qed.

Lemma shift_coord_back by_row dim padding (i : nat) j r k :
  (0 ≤ padding)%Z → (0 ≤ dim)%Z → (0 ≤ j)%Z →
  in_block dim padding (Z.of_nat i) (axis_coord by_row r k) →
  let r' := (shift_coord by_row ((j - Z.of_nat i) * (padding + dim)) r k).1 in
  let k' := (shift_coord by_row ((j - Z.of_nat i) * (padding + dim)) r k).2 in
  shift_coord by_row ((Z.of_nat i - j) * (padding + dim)) r' k' = (r, k).
Proof.
  intros Hp Hd Hj. unfold in_block, shift_coord, axis_coord.
  destruct by_row; simpl; intros Hin; f_equal; nia.
Qed.

(** X2. Reordering by a permutation of the [N] blocks and then by its
    inverse gives back every pixel that lies inside a block (the gutters
    of the result are zero). *)
Theorem reorder_img_inverse_round_trip (σ : gmap nat (Tensor3 px)) orig_img t
    perm inv by_row c h w padding (N : nat) :
  σ !! orig_img = Some t → well_shaped t →
  (0 ≤ padding)%Z → (0 ≤ axis_dim by_row h w)%Z →
  length perm = N → length inv = N →
  Forall (λ j, (0 ≤ j < Z.of_nat N)%Z) perm →
  Forall (λ j, (0 ≤ j < Z.of_nat N)%Z) inv →
  (∀ (i : nat) j, inv !! i = Some j → perm !! Z.to_nat j = Some (Z.of_nat i)) →
  (Z.of_nat N * (padding + axis_dim by_row h w) ≤ Z.of_nat (axis_len by_row t))%Z →
  ∃ l1 σ1 l2 σ2 out,
    reorder_img zero orig_img perm by_row (c, h, w) padding σ = (Ok l1, σ1)
    ∧ reorder_img zero l1 inv by_row (c, h, w) padding σ1 = (Ok l2, σ2)
    ∧ σ2 !! l2 = Some out
    ∧ ∀ (i : nat) ch r k,
        i < N →
        in_block (axis_dim by_row h w) padding (Z.of_nat i) (axis_coord by_row r k) →
        pixel out ch r k = pixel t ch r k.
Proof.
  intros Ho Hwf Hp Hd Hlp Hli Hperm Hinv Hinverse HN.
  destruct (reorder_img_inside σ orig_img t perm by_row c h w padding (Z.of_nat N)
              Ho Hwf Hp Hd Hperm ltac:(lia) HN)
    as (l1 & σ1 & out1 & Hrun1 & Hout1 & Hw1 & Hs1 & Hpix1).
  destruct (reorder_img_inside σ1 l1 out1 inv by_row c h w padding (Z.of_nat N)
              Hout1 Hw1 Hp Hd Hinv ltac:(lia))
    as (l2 & σ2 & out2 & Hrun2 & Hout2 & _ & _ & Hpix2).
  { by rewrite (axis_len_size by_row _ _ Hs1). }
  exists l1, σ1, l2, σ2, out2. split_and!; [done..|].
  intros i ch r k Hi Hin.
  destruct (lookup_lt_is_Some_2 inv i ltac:(lia)) as [j Hj].
  pose proof (proj1 (Forall_lookup _ _) Hinv _ _ Hj) as Hjr. simpl in Hjr.
  rewrite (Hpix2 i j ch r k Hj Hin).
  pose proof (shift_coord_in_block by_row _ _ i j r k Hp Hd ltac:(lia) Hin) as Hin'.
  pose proof (shift_coord_back by_row _ _ i j r k Hp Hd ltac:(lia) Hin) as Hback.
  simpl in Hback.
  set (r' := (shift_coord by_row ((j - Z.of_nat i) * (padding + axis_dim by_row h w)) r k).1) in *.
  set (k' := (shift_coord by_row ((j - Z.of_nat i) * (padding + axis_dim by_row h w)) r k).2) in *.
  rewrite (Hpix1 (Z.to_nat j) (Z.of_nat i) ch r' k' (Hinverse _ _ Hj)).
  - rewrite Z2Nat.id by lia. by rewrite Hback.
  - rewrite Z2Nat.id by lia. done.
Qed.
End reorder_img_moves.

(** Moving the second row of [two_row_grid] to the front: the cell row of
    the result's block 0 is the input's block 1. *)
Lemma reorder_img_moves_blocks_witness :
  well_shaped two_row_grid
  ∧ ∃ l σ' out,
      reorder_img 0%Z 0 [1; 0]%Z true (1, 1, 1)%Z 1%Z {[ 0 := two_row_grid ]} = (Ok l, σ')
      ∧ σ' !! l = Some out
      ∧ pixel out 0 1 1 = Some 2%Z.
Proof.
  split; [exact well_shaped_two_row_grid|].
  destruct (reorder_img_moves_blocks 0%Z {[ 0 := two_row_grid ]} 0 two_row_grid
              [1; 0]%Z true 1%Z 1%Z 1%Z 1%Z 2%Z lookup_two_row_grid well_shaped_two_row_grid)
    as (l & σ' & out & Hrun & Hout & Hpix);
    [simpl; lia|simpl; lia|repeat constructor; lia|simpl; lia|simpl; lia|].
  exists l, σ', out. split; [exact Hrun|]. split; [exact Hout|].
  rewrite (Hpix 0 1%Z 0 1 1 eq_refl); [reflexivity|].
  unfold in_block. simpl. lia.
Defined.

Lemma reorder_img_inverse_round_trip_witness :
  well_shaped two_row_grid
  ∧ ∃ l1 σ1 l2 σ2 out,
      reorder_img 0%Z 0 [1; 0]%Z true (1, 1, 1)%Z 1%Z {[ 0 := two_row_grid ]} = (Ok l1, σ1)
      ∧ reorder_img 0%Z l1 [1; 0]%Z true (1, 1, 1)%Z 1%Z σ1 = (Ok l2, σ2)
      ∧ σ2 !! l2 = Some out
      ∧ pixel out 0 3 1 = pixel two_row_grid 0 3 1.
Proof.
  split; [exact well_shaped_two_row_grid|].
  destruct (reorder_img_inverse_round_trip 0%Z {[ 0 := two_row_grid ]} 0 two_row_grid
              [1; 0]%Z [1; 0]%Z true 1%Z 1%Z 1%Z 1%Z 2 lookup_two_row_grid
              well_shaped_two_row_grid)
    as (l1 & σ1 & l2 & σ2 & out & Hrun1 & Hrun2 & Hout & Hpix);
    [simpl; lia|simpl; lia|reflexivity|reflexivity|repeat constructor; lia
    |repeat constructor; lia| |simpl; lia|].
  { intros [|[|i]] j Hj; simpl in Hj; try discriminate; injection Hj as <-; reflexivity. }
  exists l1, σ1, l2, σ2, out. split_and!; [exact Hrun1|exact Hrun2|exact Hout|].
  apply (Hpix 1); [lia|]. unfold in_block. simpl. lia.
Defined.

(** ** [reorder_img]: indices outside the grid *)

Section reorder_outside.
Context {px : Type} (zero : px).
Implicit Types t dst src : Tensor3 px.

Lemma setitem_block_raises_RuntimeError by_row dst src a b len e :
  setitem_block by_row dst src a b len = Raise e → e = RuntimeError.
Proof.
  unfold setitem_block.
  destruct (slice_range _ a (a + len)), (slice_range _ b (b + len)).
  case_decide; [done|]. by intros [= <-].
Qed.

(** A source block that starts at or after the end of the image is empty,
    and cannot fill a destination block that is not. *)
Lemma setitem_block_outside by_row dst src a b len :
  size dst = size src →
  (0 ≤ a)%Z → (0 < len)%Z → (a + len ≤ Z.of_nat (axis_len by_row dst))%Z →
  (Z.of_nat (axis_len by_row dst) ≤ b)%Z →
  setitem_block by_row dst src a b len = Raise RuntimeError.
Proof.
  intros Hsz Ha Hl Han Hb. unfold setitem_block, axis_len in *.
  assert (t_rows dst = t_rows src ∧ t_cols dst = t_cols src) as [Hr Hk].
  { unfold size in Hsz. by simplify_eq. }
  rewrite <-Hr, <-Hk.
  rewrite (slice_range_inside _ a len) by (destruct by_row; lia).
  unfold slice_range, slice_norm.
  destruct (Z.ltb_spec b 0), (Z.ltb_spec (b + len) 0); try (destruct by_row; lia).
  rewrite decide_False; [done|]. destruct by_row; lia.
Qed.

Lemma reorder_loop_outside orig new by_row h w p (N : nat) reorder :
  ∀ i0 (σ : gmap nat (Tensor3 px)) src dst,
  orig ≠ new → σ !! orig = Some src → σ !! new = Some dst →
  well_shaped src → well_shaped dst → size dst = size src →
  (0 ≤ p)%Z → (0 < axis_dim by_row h w)%Z → (0 ≤ i0)%Z →
  Forall (λ old, (0 ≤ old)%Z) reorder →
  Exists (λ old, (Z.of_nat N ≤ old)%Z) reorder →
  (i0 + Z.of_nat (length reorder) ≤ Z.of_nat N)%Z →
  Z.of_nat (axis_len by_row src) = (Z.of_nat N * (p + axis_dim by_row h w) + p)%Z →
  (reorder_loop zero orig new by_row h w p i0 reorder σ).1 = Raise RuntimeError.
Proof.
  induction reorder as [|old rest IH];
    intros i0 σ src dst Hne Ho Hn Hws Hwd Hsz Hp Hd Hi0 Hall Hex Hlen HN.
  - by apply Exists_nil in Hex.
  - simpl. rewrite (lookup_total_correct _ _ _ Hn), (lookup_total_correct _ _ _ Ho).
    fold (axis_dim by_row h w).
    apply Forall_cons in Hall as [Hold Hall]. simpl in Hlen.
    pose proof (axis_len_size by_row _ _ Hsz) as Hax.
    destruct (setitem_block _ _ _ _ _ _) as [t'|e] eqn:E.
    + destruct (setitem_block_Ok _ _ _ _ _ _ _ Hwd Hws Hsz E) as (Hwt & Hst & _).
      apply Exists_cons in Hex as [Hbad|Hex].
      * rewrite setitem_block_outside in E; [done|done|nia|lia|nia|nia].
      * eapply (IH _ _ src t'); try done.
        -- by rewrite lookup_insert_ne.
        -- by rewrite lookup_insert_eq.
        -- congruence.
        -- lia.
        -- lia.
    + simpl. by rewrite (setitem_block_raises_RuntimeError _ _ _ _ _ _ _ E).
Qed.

(** X3. On a grid exactly tiled by [N] blocks of positive extent, a list
    of non-negative indices, no longer than [N], that names an index [N] or
    larger makes [reorder_img] raise [RuntimeError] (torch's shape
    mismatch); there is no check of the permutation beforehand. *)
Theorem reorder_img_index_outside_raises (σ : gmap nat (Tensor3 px)) orig_img t
    reorder by_row c h w padding (N : nat) :
  σ !! orig_img = Some t → well_shaped t →
  (0 ≤ padding)%Z → (0 < axis_dim by_row h w)%Z →
  Z.of_nat (axis_len by_row t)
    = (Z.of_nat N * (padding + axis_dim by_row h w) + padding)%Z →
  length reorder ≤ N →
  Forall (λ old_idx, (0 ≤ old_idx)%Z) reorder →
  Exists (λ old_idx, (Z.of_nat N ≤ old_idx)%Z) reorder →
  (reorder_img zero orig_img reorder by_row (c, h, w) padding σ).1 = Raise RuntimeError.
Proof.
  intros Ho Hwf Hp Hd Htile Hlen Hall Hex. unfold reorder_img, torch_zeros.
  rewrite (lookup_total_correct _ _ _ Ho).
  pose proof (fresh_reference σ) as Hfresh.
  set (l0 := fresh (dom σ)) in *.
  assert (orig_img ≠ l0) as Hne by congruence.
  set (σ1 := <[l0:=zeros zero (size t)]> σ).
  assert (σ1 !! orig_img = Some t) as Ho1 by (unfold σ1; by rewrite lookup_insert_ne).
  assert (σ1 !! l0 = Some (zeros zero (size t))) as Hn1
    by (unfold σ1; by rewrite lookup_insert_eq).
  pose proof (reorder_loop_outside orig_img l0 by_row h w padding N reorder 0 σ1 t _
                Hne Ho1 Hn1 Hwf (well_shaped_zeros zero (size t)) (size_zeros zero (size t))
                Hp Hd ltac:(lia) Hall Hex ltac:(lia) Htile) as Hrun.
  destruct (reorder_loop _ _ _ _ _ _ _ _ _ _) as [[[]|e] σ2]; simpl in *; [done|].
  by injection Hrun as ->.
Qed.
End reorder_outside.

Lemma reorder_img_index_outside_raises_witness :
  well_shaped two_row_grid
  ∧ (reorder_img 0%Z 0 [0; 2]%Z true (1, 1, 1)%Z 1%Z {[ 0 := two_row_grid ]}).1
    = Raise RuntimeError.
Proof.
  split; [exact well_shaped_two_row_grid|].
  apply (reorder_img_index_outside_raises 0%Z {[ 0 := two_row_grid ]} 0 two_row_grid
           [0; 2]%Z true 1%Z 1%Z 1%Z 1%Z 2 lookup_two_row_grid well_shaped_two_row_grid);
    [simpl; lia|simpl; lia|reflexivity|simpl; lia|repeat constructor; lia|].
  apply Exists_cons_tl, Exists_cons_hd. simpl. lia.
Defined.

(** ** [generate_heat_maps]: files, names and failures *)



Lemma heat_map_name_ValueError filename latent_dim :
  length (split_on "." filename) ≠ 2 →
  heat_map_name filename latent_dim = Raise ValueError.
Proof.
  unfold heat_map_name. destruct (split_on "." filename) as [|a [|b [|c l]]]; simpl; [done..|lia|done].
Qed.

(** X5. With [save_images], a file name that does not have exactly one dot
    (a path such as [./imgs/heatmap.png], or a name with no extension) makes
    the call raise [ValueError] when the first file is to be named, with
    nothing written; without [save_images] the file name is never looked
    at. *)
Theorem generate_heat_maps_bad_filename means H W filename :
  matrix_shaped means → 0 < m_cols means →
  (∀ x y, x < H → y < W → W * y + x < m_rows means) →
  length (split_on "." filename) ≠ 2 →
  generate_heat_maps true means (H, W) filename = (Raise ValueError, [])
  ∧ is_Ok (generate_heat_maps false means (H, W) filename).1.
Proof.
  intros Hm Hd Hin Hname. split.
  - unfold generate_heat_maps. simpl.
    destruct (m_cols means) as [|L] eqn:HL; [lia|]. simpl.
    pose proof (getitem2_in_range means H W 0 Hm ltac:(lia) Hin) as Hok.
    destruct (fill_heat_map_Ok means H W 0 (heat_map_zeros H W) Hok)
      as (hm' & -> & _ & _).
    { apply heat_map_zeros_shape. }
    by rewrite heat_map_name_ValueError.
  - destruct (generate_heat_maps_return means H W filename Hm Hd Hin) as (grid & -> & _).
    done.
Qed.

Lemma generate_heat_maps_bad_filename_witness :
  matrix_shaped means_fractions
  ∧ generate_heat_maps true means_fractions (1, 1) "./imgs/heatmap.png"
    = (Raise ValueError, []).
Proof.
  split; [exact matrix_shaped_means_fractions|].
  apply (generate_heat_maps_bad_filename means_fractions 1 1 "./imgs/heatmap.png"
           matrix_shaped_means_fractions).
  - simpl. lia.
  - intros x y Hx Hy. simpl. lia.
  - vm_compute. lia.
Defined.

(** X6. With at least one latent dimension (and, when saving, a file name
    with exactly one dot), [generate_heat_maps] raises [IndexError] exactly
    when some visited sample index [width*y + x], [x < height],
    [y < width], is not below the number of samples; nothing is written
    then. *)
Theorem generate_heat_maps_IndexError_iff save_images means H W filename name extension :
  matrix_shaped means → 0 < m_cols means →
  split_on "." filename = [name; extension] →
  generate_heat_maps save_images means (H, W) filename = (Raise IndexError, [])
  ↔ ∃ x y, x < H ∧ y < W ∧ m_rows means ≤ W * y + x.
Proof.
  intros Hm Hd Hname. split.
  - intros Hrun.
    destruct (decide (Exists (λ p, m_rows means ≤ W * p.1 + p.2) (cells H W))) as [Hex|Hno].
    + apply Exists_exists in Hex as ([y x] & Hin & Hbad).
      apply elem_of_cells in Hin as [Hy Hx]. eauto.
    + exfalso.
      assert (∀ x y, x < H → y < W → W * y + x < m_rows means) as Hin.
      { intros x y Hx Hy. destruct (decide (W * y + x < m_rows means)); [done|].
        exfalso. apply Hno, Exists_exists. exists (y, x). split; [|simpl; lia].
        by apply elem_of_cells. }
      destruct save_images.
      * rewrite (generate_heat_maps_save_RuntimeError means H W filename name extension
                   Hm Hd Hname Hin) in Hrun.
        congruence.
      * destruct (generate_heat_maps_return means H W filename Hm Hd Hin)
          as (grid & Hret & _). congruence.
  - intros (x & y & Hx & Hy & Hbad). unfold generate_heat_maps. simpl.
    destruct (m_cols means) as [|L] eqn:HL; [lia|]. simpl.
    rewrite (fill_heat_map_Raise means H W 0 _ x y); [done..|].
    rewrite getitem2_is_Ok by done. lia.
Qed.

Lemma generate_heat_maps_IndexError_iff_witness :
  matrix_shaped means_five
  ∧ (generate_heat_maps false means_five (2, 3) "imgs/heatmap.png" = (Raise IndexError, [])
     ↔ ∃ x y, x < 2 ∧ y < 3 ∧ m_rows means_five ≤ 3 * y + x).
Proof.
  split; [exact matrix_shaped_means_five|].
  apply (generate_heat_maps_IndexError_iff false means_five 2 3 "imgs/heatmap.png"
           "imgs/heatmap" "png" matrix_shaped_means_five); [simpl; lia|reflexivity].
Defined.

(** X7. On a grid that is wider than it is high, [height*width] samples
    are not enough: the loops read index [width*(width-1) + height - 1],
    and the call raises [IndexError]. *)
Theorem generate_heat_maps_wide_grid_raises save_images means H W filename :
  matrix_shaped means → 0 < m_cols means →
  0 < H → H < W → m_rows means = H * W →
  generate_heat_maps save_images means (H, W) filename = (Raise IndexError, []).
Proof.
  intros Hm Hd HH HW HN. unfold generate_heat_maps. simpl.
  destruct (m_cols means) as [|L] eqn:HL; [lia|]. simpl.
  rewrite (fill_heat_map_Raise means H W 0 _ (H - 1) (W - 1)); [done|lia|lia|].
  rewrite getitem2_is_Ok by done. nia.
Qed.

Lemma matrix_shaped_means_two_samples : matrix_shaped means_two_samples.
Proof. split; [reflexivity|]. repeat constructor. Defined.

Lemma generate_heat_maps_wide_grid_raises_witness :
  matrix_shaped means_two_samples
  ∧ generate_heat_maps true means_two_samples (1, 2) "imgs/heatmap.png"
    = (Raise IndexError, []).
Proof.
  split; [exact matrix_shaped_means_two_samples|].
  apply (generate_heat_maps_wide_grid_raises true means_two_samples 1 2 "imgs/heatmap.png"
           matrix_shaped_means_two_samples); simpl; lia.
Defined.

(** ** The order on strings *)

Lemma ascii_compare_Lt_trans a b c :
  Ascii.compare a b = Lt → Ascii.compare b c = Lt → Ascii.compare a c = Lt.
Proof.
  unfold Ascii.compare. rewrite !N.compare_lt_iff. apply N.lt_trans.
Qed.

Lemma string_compare_Lt_trans s1 : ∀ s2 s3,
  String.compare s1 s2 = Lt → String.compare s2 s3 = Lt → String.compare s1 s3 = Lt.
Proof.
  induction s1 as [|a s1 IH]; intros [|b s2] [|c s3]; simpl; try done.
  destruct (Ascii.compare a b) eqn:Eab; [|intros _|done].
  - apply Ascii.compare_eq_iff in Eab as ->.
    destruct (Ascii.compare b c) eqn:Ebc; [|done..]. apply IH.
  - destruct (Ascii.compare b c) eqn:Ebc; [|intros _|done].
    + apply Ascii.compare_eq_iff in Ebc as <-. by rewrite Eab.
    + by rewrite (ascii_compare_Lt_trans a b c).
Qed.

Lemma string_ltb_trans s1 s2 s3 :
  String.ltb s1 s2 = true → String.ltb s2 s3 = true → String.ltb s1 s3 = true.
Proof.
  unfold String.ltb.
  destruct (String.compare s1 s2) eqn:E12; [done| |done].
  destruct (String.compare s2 s3) eqn:E23; [done| |done].
  by rewrite (string_compare_Lt_trans _ _ _ E12 E23).
Qed.

Lemma string_ltb_asym s1 s2 :
  String.ltb s1 s2 = true → String.ltb s2 s1 = true → False.
Proof.
  unfold String.ltb. rewrite (String.compare_antisym s2 s1).
  by destruct (String.compare s1 s2).
Qed.

Lemma string_ltb_total s1 s2 :
  s1 ≠ s2 → String.ltb s1 s2 = true ∨ String.ltb s2 s1 = true.
Proof.
  intros Hne. unfold String.ltb. rewrite (String.compare_antisym s2 s1).
  destruct (String.compare s1 s2) eqn:E; simpl; auto.
  by apply String.compare_eq_iff in E.
Qed.

Lemma string_eqb_false s1 s2 : s1 ≠ s2 → String.eqb s1 s2 = false.
Proof. intros Hne. by apply String.eqb_neq. Qed.

(** ** [sorted] on rows with distinct keys *)

Lemma tuple_lt_distinct (p q : string * Matrix) :
  p.1 ≠ q.1 → tuple_lt p q = Ok (String.ltb p.1 q.1).
Proof. intros Hne. unfold tuple_lt. by rewrite string_eqb_false. Qed.

Lemma tuple_lt_tie (p q : string * Matrix) :
  p.1 = q.1 → single_element p.2 = None → tuple_lt p q = Raise RuntimeError.
Proof.
  intros Heq Hp. unfold tuple_lt, tensor_eq_bool.
  rewrite Heq, String.eqb_refl, Hp. done.
Qed.

Lemma StronglySorted_rev {A} (R : relation A) l :
  StronglySorted R l → StronglySorted (flip R) (rev l).
Proof.
  induction 1 as [|x l Hl IH Hx]; simpl; [constructor|].
  apply StronglySorted_app. split_and!.
  - intros x1 x2 Hx1 Hx2. apply list_elem_of_singleton in Hx2 as ->.
    rewrite Forall_forall in Hx. apply Hx. by rewrite <-(Permutation_rev l) in Hx1.
  - done.
  - repeat constructor.
Qed.

Lemma insert_sorted_distinct (x : string * Matrix) s :
  StronglySorted key_lt s → Forall (λ y, y.1 ≠ x.1) s →
  ∃ s', insert_sorted tuple_lt x s = Ok s' ∧ s' ≡ₚ x :: s ∧ StronglySorted key_lt s'.
Proof.
  induction s as [|y s IH]; intros Hs Hne; simpl.
  - eexists. split_and!; [done..|]. repeat constructor.
  - apply Forall_cons in Hne as [Hy Hne].
    apply StronglySorted_cons in Hs as [Hys Hs].
    rewrite tuple_lt_distinct by done.
    destruct (String.ltb y.1 x.1) eqn:Hlt.
    + destruct (IH Hs Hne) as (s' & -> & Hperm & Hs').
      eexists. split; [done|]. split.
      * rewrite Hperm. apply perm_swap.
      * apply StronglySorted_cons. split; [|done].
        rewrite Hperm. by constructor.
    + eexists. split; [done|]. split; [done|].
      assert (key_lt x y) as Hxy.
      { destruct (string_ltb_total y.1 x.1 Hy) as [?|?]; [congruence|done]. }
      apply StronglySorted_cons. split.
      * constructor; [done|]. eapply Forall_impl; [exact Hys|].
        intros z Hz. by eapply string_ltb_trans.
      * by apply StronglySorted_cons.
Qed.

Lemma sort_ascending_distinct (l : list (string * Matrix)) :
  NoDup l.*1 →
  ∃ s, sort_ascending tuple_lt l = Ok s ∧ s ≡ₚ l ∧ StronglySorted key_lt s.
Proof.
  induction l as [|x l IH]; intros Hnd; simpl.
  - exists []. split_and!; [done..|]. constructor.
  - rewrite fmap_cons in Hnd. apply NoDup_cons in Hnd as [Hx Hnd].
    destruct (IH Hnd) as (s & -> & Hperm & Hs).
    destruct (insert_sorted_distinct x s Hs) as (s' & -> & Hperm' & Hs').
    { apply Forall_forall. intros y Hy Heq. apply Hx.
      rewrite <-Heq. apply list_elem_of_fmap. exists y. split; [done|]. by rewrite <-Hperm. }
    exists s'. split; [done|]. split; [|done]. by rewrite Hperm', Hperm.
Qed.

(** With distinct keys, [sorted(rows, reverse=True)] returns the rows in
    descending order of their keys. *)
Lemma sorted_reverse_distinct (l : list (string * Matrix)) :
  NoDup l.*1 →
  ∃ s, sorted_reverse tuple_lt l = Ok s ∧ s ≡ₚ l ∧ StronglySorted (flip key_lt) s.
Proof.
  intros Hnd. unfold sorted_reverse.
  destruct (sort_ascending_distinct (rev l)) as (s & -> & Hperm & Hs).
  { by rewrite <-(Permutation_rev l). }
  exists (rev s). split; [done|]. split.
  - by rewrite <-Permutation_rev, Hperm, <-Permutation_rev.
  - by apply StronglySorted_rev.
Qed.

Lemma fst_zip_take {A B} (l : list A) (k : list B) :
  (zip l k).*1 = take (length k) l.
Proof.
  rewrite <-(zip_with_take_l pair l k). apply fst_zip.
  rewrite length_take. lia.
Qed.

Lemma NoDup_fst_zip {A B} (l : list A) (k : list B) : NoDup l → NoDup (zip l k).*1.
Proof.
  intros Hnd. rewrite fst_zip_take. eapply sublist_NoDup; [done|]. apply sublist_take.
Qed.

#[global] Instance flip_key_lt_antisymm : AntiSymm eq (flip key_lt).
Proof. intros p q Hpq Hqp. exfalso. by eapply string_ltb_asym. Qed.

(** X8. When the scores of the log are pairwise different strings, line 200
    returns the traversals as a rearrangement of the (score, traversal)
    pairs in strictly descending order of the scores as strings. *)
Theorem sort_latent_samples_distinct avg_kl_list latent_samples :
  NoDup avg_kl_list →
  ∃ rows,
    sort_latent_samples avg_kl_list latent_samples = Ok rows.*2
    ∧ rows ≡ₚ zip avg_kl_list latent_samples
    ∧ StronglySorted (λ p q, String.ltb q.1 p.1 = true) rows.
Proof.
  intros Hnd. unfold sort_latent_samples.
  destruct (sorted_reverse_distinct (zip avg_kl_list latent_samples)) as (rows & -> & Hperm & Hs).
  { by apply NoDup_fst_zip. }
  by exists rows.
Qed.

(** X9. With pairwise different scores, the labels of line 201 are the
    scores of the rows of line 200, in the same order, although line 201
    pairs the scores with the traversals that line 200 has already
    rearranged. *)
Theorem sort_avg_kl_matches_rows avg_kl_list latent_samples :
  NoDup avg_kl_list →
  ∃ rows,
    sorted_reverse tuple_lt (zip avg_kl_list latent_samples) = Ok rows
    ∧ sort_latent_samples avg_kl_list latent_samples = Ok rows.*2
    ∧ sort_avg_kl avg_kl_list rows.*2 = Ok rows.*1.
Proof.
  intros Hnd. unfold sort_latent_samples, sort_avg_kl.
  destruct (sorted_reverse_distinct (zip avg_kl_list latent_samples)) as (rows & Hrun & Hperm & Hs).
  { by apply NoDup_fst_zip. }
  destruct (sorted_reverse_distinct (zip avg_kl_list rows.*2)) as (rows2 & Hrun2 & Hperm2 & Hs2).
  { by apply NoDup_fst_zip. }
  exists rows. rewrite Hrun, Hrun2. split_and!; [done..|]. f_equal.
  assert (StronglySorted (flip String.ltb) rows.*1) as Hk1.
  { eapply StronglySorted_fmap; [|exact Hs]. intros x y Hxy. exact (Is_true_true_2 _ Hxy). }
  assert (StronglySorted (flip String.ltb) rows2.*1) as Hk2.
  { eapply StronglySorted_fmap; [|exact Hs2]. intros x y Hxy. exact (Is_true_true_2 _ Hxy). }
  apply (StronglySorted_unique_strong (flip String.ltb)); [|done..|].
  - intros x1 x2 _ _ H1 H2. exfalso.
    apply Is_true_true_1 in H1, H2. by eapply string_ltb_asym.
  - assert (take (length rows.*2) avg_kl_list
            = take (length latent_samples) avg_kl_list) as Htake.
    { rewrite length_fmap, (Permutation_length Hperm), length_zip_with.
      destruct (decide (length avg_kl_list ≤ length latent_samples)).
      - rewrite Nat.min_l by done. by rewrite !take_ge by lia.
      - by rewrite Nat.min_r by lia. }
    transitivity (take (length latent_samples) avg_kl_list).
    + rewrite <-Htake, <-fst_zip_take. by rewrite Hperm2.
    + rewrite <-fst_zip_take. by rewrite Hperm.
Qed.

Lemma NoDup_scores_example : NoDup ["0.1"; "0.9"; "0.5"].
Proof. apply (bool_decide_unpack _). vm_compute. exact I. Defined.

Lemma sort_latent_samples_distinct_witness :
  NoDup ["0.1"; "0.9"; "0.5"]
  ∧ ∃ rows,
      sort_latent_samples ["0.1"; "0.9"; "0.5"] [latent_line 0; latent_line 1; latent_line 2]
      = Ok rows.*2
      ∧ rows ≡ₚ zip ["0.1"; "0.9"; "0.5"] [latent_line 0; latent_line 1; latent_line 2]
      ∧ StronglySorted (λ p q, String.ltb q.1 p.1 = true) rows.
Proof.
  split; [exact NoDup_scores_example|].
  exact (sort_latent_samples_distinct ["0.1"; "0.9"; "0.5"]
           [latent_line 0; latent_line 1; latent_line 2] NoDup_scores_example).
Defined.

Lemma sort_avg_kl_matches_rows_witness :
  NoDup ["0.1"; "0.9"; "0.5"]
  ∧ ∃ rows,
      sorted_reverse tuple_lt
        (zip ["0.1"; "0.9"; "0.5"] [latent_line 0; latent_line 1; latent_line 2]) = Ok rows
      ∧ sort_latent_samples ["0.1"; "0.9"; "0.5"]
          [latent_line 0; latent_line 1; latent_line 2] = Ok rows.*2
      ∧ sort_avg_kl ["0.1"; "0.9"; "0.5"] rows.*2 = Ok rows.*1.
Proof.
  split; [exact NoDup_scores_example|].
  exact (sort_avg_kl_matches_rows ["0.1"; "0.9"; "0.5"]
           [latent_line 0; latent_line 1; latent_line 2] NoDup_scores_example).
Defined.

(** ** [sorted] on rows with equal keys *)

Lemma insert_sorted_tie (x : string * Matrix) s :
  StronglySorted key_lt s →
  Forall (λ y, single_element y.2 = None) s →
  x.1 ∈ s.*1 →
  insert_sorted tuple_lt x s = Raise RuntimeError.
Proof.
  induction s as [|y s IH]; intros Hs Hns Hin; simpl.
  - by apply elem_of_nil in Hin.
  - apply Forall_cons in Hns as [Hy Hns].
    apply StronglySorted_cons in Hs as [Hys Hs].
    destruct (decide (y.1 = x.1)) as [Heq|Hne].
    + by rewrite tuple_lt_tie.
    + rewrite tuple_lt_distinct by done.
      rewrite fmap_cons in Hin. apply elem_of_cons in Hin as [Hin|Hin]; [congruence|].
      destruct (String.ltb y.1 x.1) eqn:Hlt.
      * by rewrite IH.
      * exfalso. apply list_elem_of_fmap in Hin as (e & He & Hein).
        rewrite Forall_forall in Hys. specialize (Hys e Hein).
        unfold key_lt in Hys. congruence.
Qed.

Lemma sort_ascending_tie (l : list (string * Matrix)) :
  Forall (λ y, single_element y.2 = None) l → ¬ NoDup l.*1 →
  sort_ascending tuple_lt l = Raise RuntimeError.
Proof.
  induction l as [|x l IH]; intros Hns Hdup; simpl.
  - exfalso. apply Hdup. constructor.
  - apply Forall_cons in Hns as [Hx Hns].
    destruct (decide (NoDup l.*1)) as [Hnd|Hnd].
    + destruct (sort_ascending_distinct l Hnd) as (s & -> & Hperm & Hs).
      apply insert_sorted_tie; [done| |].
      * by rewrite Hperm.
      * rewrite Hperm. destruct (decide (x.1 ∈ l.*1)) as [|Hnin]; [done|].
        exfalso. apply Hdup. rewrite fmap_cons. by constructor.
    + by rewrite IH.
Qed.

(** X10. When every score has its traversal, two scores of the log are the
    same string, and no traversal is a tensor with a single element, line
    200 raises [RuntimeError]: comparing the tied tuples goes on to the
    tensors, whose truth value torch refuses. *)
Theorem sort_latent_samples_equal_scores_raise avg_kl_list latent_samples :
  length avg_kl_list ≤ length latent_samples →
  ¬ NoDup avg_kl_list →
  Forall (λ t, single_element t = None) latent_samples →
  sort_latent_samples avg_kl_list latent_samples = Raise RuntimeError.
Proof.
  intros Hlen Hdup Hns. unfold sort_latent_samples, sorted_reverse.
  rewrite sort_ascending_tie; [done| |].
  - rewrite <-Permutation_rev. apply Forall_forall. intros [k t] Hin. simpl.
    rewrite Forall_forall in Hns. apply Hns.
    apply elem_of_zip_r in Hin. done.
  - rewrite <-Permutation_rev. by rewrite fst_zip.
Qed.

Lemma sort_latent_samples_equal_scores_raise_witness :
  ¬ NoDup ["0.5"; "0.9"; "0.5"]
  ∧ sort_latent_samples ["0.5"; "0.9"; "0.5"] [latent_line 0; latent_line 1; latent_line 2]
    = Raise RuntimeError.
Proof.
  assert (¬ NoDup ["0.5"; "0.9"; "0.5"]) as Hdup.
  { apply (bool_decide_unpack _). vm_compute. exact I. }
  split; [exact Hdup|].
  apply (sort_latent_samples_equal_scores_raise ["0.5"; "0.9"; "0.5"]
           [latent_line 0; latent_line 1; latent_line 2]); [simpl; lia|exact Hdup|].
  repeat constructor.
Defined.

(** ** The metric reader *)

(** X11. For a log with at least one record, [read_avg_kl_from_file]
    returns the fields of the last record without the first one; the
    earlier records play no part. *)
Theorem read_avg_kl_from_file_last_record rows first_field fields :
  read_avg_kl_from_file (rows ++ [first_field :: fields]) = Ok fields.
Proof. by rewrite read_avg_kl_from_file_last. Qed.

(** ** The views: what they leave behind *)

Section views.
Context {SamplerState Images : Type}.
Context (save_images : bool) (latent_dim : nat)
  (traverse_line : LatentTraverser SamplerState → nat → nat
                   → result Matrix * LatentTraverser SamplerState)
  (traverse_grid : LatentTraverser SamplerState → nat * nat
                   → result Matrix * LatentTraverser SamplerState)
  (decode_latents : Matrix → result Images)
  (make_grid : Images → nat → Tensor3 Q)
  (kl_label : string → result string).

(** X12. When the prior-sampling call raises, [samples] passes the
    exception on without restoring the flag: if that call leaves the flag
    as it got it, the flag is set after the call, whatever it was before. *)
Theorem samples_flag_stays_set size filename (w : World SamplerState) e lt' :
  traverse_grid (set_sample_prior true (latent_traverser w)) size = (Raise e, lt') →
  sample_prior lt' = true →
  (samples save_images traverse_grid decode_latents make_grid size filename w).1 = Raise e
  ∧ sample_prior (latent_traverser
       (samples save_images traverse_grid decode_latents make_grid size filename w).2)
    = true
  ∧ saved (samples save_images traverse_grid decode_latents make_grid size filename w).2
    = saved w.
Proof. intros Hgrid Hflag. unfold samples. rewrite Hgrid. done. Qed.

(** X13. [all_latent_traversals] either saves or returns, never both: a
    call that returns [None] was made with [save_images] and has written
    exactly one picture, under [filename]; a call that returns a tensor was
    made without [save_images] and has written nothing; a call that raises
    has written nothing.  The log is never changed. *)
Theorem all_latent_traversals_saves_or_returns size filename (w : World SamplerState) :
  kl_data_log
    (all_latent_traversals save_images latent_dim traverse_line decode_latents make_grid
       kl_label size filename w).2 = kl_data_log w
  ∧ match (all_latent_traversals save_images latent_dim traverse_line decode_latents
             make_grid kl_label size filename w).1 with
    | Ok None =>
        save_images = true
        ∧ ∃ picture,
            saved (all_latent_traversals save_images latent_dim traverse_line
                     decode_latents make_grid kl_label size filename w).2
            = saved w ++ [(filename, picture)]
    | Ok (Some _) =>
        save_images = false
        ∧ saved (all_latent_traversals save_images latent_dim traverse_line
                   decode_latents make_grid kl_label size filename w).2 = saved w
    | Raise _ =>
        saved (all_latent_traversals save_images latent_dim traverse_line
                 decode_latents make_grid kl_label size filename w).2 = saved w
    end.
Proof.
  unfold all_latent_traversals.
  destruct (kl_data_log w) as [rows|] eqn:Hlog; [|simpl; by rewrite Hlog].
  destruct (read_avg_kl_from_file rows); [|simpl; by rewrite Hlog].
  destruct (traverse_lines _ _ _ _) as [[latent_samples|e] lt]; [|simpl; by rewrite Hlog].
  destruct (sort_latent_samples _ _); [|simpl; by rewrite Hlog].
  destruct (sort_avg_kl _ _); [|simpl; by rewrite Hlog].
  destruct (map_result _ _); [|simpl; by rewrite Hlog].
  destruct (torch_cat _); [|simpl; by rewrite Hlog].
  destruct (decode_latents _); [|simpl; by rewrite Hlog].
  destruct save_images; simpl; rewrite Hlog; eauto.
Qed.
End views.

Lemma samples_flag_stays_set_witness :
  traverse_grid_raises (set_sample_prior true (mkLatentTraverser false ())) (8, 8)
  = (Raise ValueError, mkLatentTraverser true ())
  ∧ sample_prior (latent_traverser
       (samples false traverse_grid_raises decode_fails make_grid_stub (8, 8)
          "imgs/samples.png" (mkWorld (mkLatentTraverser false ()) None [])).2)
    = true.
Proof.
  split; [reflexivity|].
  exact (proj1 (proj2 (samples_flag_stays_set false traverse_grid_raises decode_fails
                         make_grid_stub (8, 8) "imgs/samples.png"
                         (mkWorld (mkLatentTraverser false ()) None [])
                         ValueError (mkLatentTraverser true ()) eq_refl eq_refl))).
Defined.

(** ** The width of the canvas *)

(** X14. For every grid width below 4096 pixels, the double computation
    [int(1.3 * width)] gives the integer part of 13*width/10. *)
Theorem int_1_3_times_is_floor w :
  (0 ≤ w < 4096)%Z → int_1_3_times w = (13 * w / 10)%Z.
Proof. apply int_1_3_times_small. Qed.

Lemma int_1_3_times_is_floor_witness :
  (0 ≤ 274 < 4096)%Z ∧ int_1_3_times 274 = (13 * 274 / 10)%Z.
Proof. split; [lia|]. apply (int_1_3_times_is_floor 274). lia. Defined.

(** ** [generate_heat_maps]: the samples it reads *)

Lemma for_each_ext {A S} (f g : A → S → result S) xs : ∀ s,
  (∀ x s, x ∈ xs → f x s = g x s) → for_each f xs s = for_each g xs s.
Proof.
  induction xs as [|x xs IH]; intros s Hfg; simpl; [done|].
  rewrite <-(Hfg x s) by left. destruct (f x s); [|done].
  apply IH. intros x' s' Hx'. apply Hfg. by right.
Qed.

Lemma fill_heat_map_ext means1 means2 H W d hm :
  (∀ x y, x < H → y < W →
          getitem2 means1 (W * y + x) d = getitem2 means2 (W * y + x) d) →
  fill_heat_map means1 H W d hm = fill_heat_map means2 H W d hm.
Proof.
  intros Hsame. rewrite !fill_heat_map_cells. apply for_each_ext.
  intros [y x] s Hin. apply elem_of_cells in Hin as [Hy Hx]. simpl.
  by rewrite Hsame.
Qed.

Lemma heat_map_loop_ext save_images means1 means2 H W filename dims : ∀ hm files,
  (∀ d x y, d ∈ dims → x < H → y < W →
            getitem2 means1 (W * y + x) d = getitem2 means2 (W * y + x) d) →
  heat_map_loop save_images means1 H W filename dims hm files
  = heat_map_loop save_images means2 H W filename dims hm files.
Proof.
  induction dims as [|d dims IH]; intros hm files Hsame; simpl; [done|].
  rewrite (fill_heat_map_ext means1 means2) by (intros; apply Hsame; [left|done..]).
  destruct (fill_heat_map means2 H W d hm); [|done].
  destruct save_images; [|done].
  by destruct (heat_map_name filename d).
Qed.

(** X15. [generate_heat_maps] looks at [means] only at the sample indices
    [width*y + x] with [x < height] and [y < width]: two inputs with as many
    latent dimensions that agree there give the same outcome, so samples at
    other indices (for instance those beyond a square grid's [width*width])
    are ignored without notice. *)
Theorem generate_heat_maps_reads_visited_only save_images means1 means2 H W filename :
  m_cols means1 = m_cols means2 →
  (∀ d x y, d < m_cols means1 → x < H → y < W →
            getitem2 means1 (W * y + x) d = getitem2 means2 (W * y + x) d) →
  generate_heat_maps save_images means1 (H, W) filename
  = generate_heat_maps save_images means2 (H, W) filename.
Proof.
  intros Hcols Hsame. unfold generate_heat_maps. simpl. rewrite <-Hcols.
  apply heat_map_loop_ext. intros d x y Hd. apply elem_of_seq in Hd.
  apply Hsame. lia.
Qed.

Lemma generate_heat_maps_reads_visited_only_witness :
  m_rows means_0_15 = 16 ∧ m_rows means_0_16 = 17
  ∧ generate_heat_maps false means_0_15 (4, 4) "imgs/heatmap.png"
    = generate_heat_maps false means_0_16 (4, 4) "imgs/heatmap.png".
Proof.
  split; [reflexivity|]. split; [reflexivity|].
  apply (generate_heat_maps_reads_visited_only false means_0_15 means_0_16 4 4
           "imgs/heatmap.png" eq_refl).
  intros d x y Hd Hx Hy.
  destruct d as [|d]; [|simpl in Hd; lia].
  do 4 (destruct x as [|x]; [do 4 (destruct y as [|y]; [reflexivity|]); lia|]). lia.
Defined.

(** ** [reconstructions] *)

Section reconstructions_properties.
Context {Recon : Type} (save_images : bool) (img_size : nat * nat * nat)
  (model_forward : Batch → result Recon)
  (view_images : Recon → nat * nat * nat → result (list (Tensor3 Q)))
  (make_grid : Batch → nat → Tensor3 Q).

(** X16. When the image size of the model is that of the data and at
    least one image is asked for ([size[0] >= 1]), the grid of
    [reconstructions] is made from the originals followed by the
    reconstructions, each padded at its end with all-zero images up to
    [size[0]] images when there are fewer examples; the model is left in
    training mode; the grid is saved under [filename] or returned. *)
Theorem reconstructions_layout data size filename w recon_data images :
  model_forward data = Ok recon_data →
  view_images recon_data img_size = Ok images →
  img_size = b_shape data →
  0 < size.1 →
  let blanks :=
    replicate (size.1 - length (b_images data)) (zeros 0%Q (b_shape data)) in
  let comparison :=
    mkBatch (b_shape data) ((b_images data ++ blanks) ++ (images ++ blanks)) in
  reconstructions save_images img_size model_forward view_images make_grid
    data size filename w
  = if save_images
    then (Ok None,
          mkModelWorld true
            (written w ++ [(filename, ToPILImage (make_grid comparison size.1))]))
    else (Ok (Some (make_grid comparison size.1)), mkModelWorld true (written w)).
Proof.
  intros Hfw Hview Hshape Hrows. unfold reconstructions, torch_cat_batches.
  rewrite Hfw, Hview. simpl. rewrite Hshape.
  case_decide as Hpad; simpl.
  - rewrite !decide_True by done. simpl.
    rewrite decide_False by lia. done.
  - rewrite decide_True by done. simpl.
    rewrite decide_False by lia.
    replace (size.1 - length (b_images data)) with 0 by lia. simpl.
    by rewrite !app_nil_r.
Qed.

(** X17. When the image size of the model differs from that of the data,
    [reconstructions] raises [RuntimeError] (torch cannot concatenate the
    two batches), after the model is back in training mode and before
    anything is written. *)
Theorem reconstructions_shape_mismatch data size filename w recon_data images :
  model_forward data = Ok recon_data →
  view_images recon_data img_size = Ok images →
  img_size ≠ b_shape data →
  reconstructions save_images img_size model_forward view_images make_grid
    data size filename w
  = (Raise RuntimeError, mkModelWorld true (written w)).
Proof.
  intros Hfw Hview Hshape. unfold reconstructions, torch_cat_batches.
  rewrite Hfw, Hview. simpl.
  case_decide as Hpad; simpl.
  - rewrite decide_True by done. simpl. by rewrite decide_False.
  - rewrite decide_False by congruence. done.
Qed.

(** X18. The mode in which [reconstructions] leaves the model does not
    depend on the mode it found: training mode when the forward pass
    returned (also when a later step raises), evaluation mode when the
    forward pass raised. *)
Theorem reconstructions_model_mode data size filename w :
  training (reconstructions save_images img_size model_forward view_images make_grid
              data size filename w).2
  = match model_forward data with Ok _ => true | Raise _ => false end.
Proof.
  unfold reconstructions, torch_cat_batches.
  destruct (model_forward data) as [recon_data|e]; [|done].
  destruct (view_images recon_data img_size) as [images|e]; [|done]. simpl.
  repeat case_decide; simpl; try done; by destruct save_images.
Qed.
End reconstructions_properties.

(** Two examples on a grid of three columns: one blank image is appended
    to the originals and one to the reconstructions. *)
Lemma reconstructions_layout_witness :
  forward_id two_images = Ok two_images
  ∧ view_id two_images (1, 1, 1) = Ok (b_images two_images)
  ∧ reconstructions false (1, 1, 1) forward_id view_id (λ comparison _, mkTensor3 0 0 (length (b_images comparison)) [])
      two_images (3, 8) "imgs/recon.png" (mkModelWorld false [])
    = (Ok (Some (mkTensor3 0 0 6 [])), mkModelWorld true []).
Proof.
  split; [reflexivity|]. split; [reflexivity|].
  rewrite (reconstructions_layout false (1, 1, 1) forward_id view_id
             (λ comparison _, mkTensor3 0 0 (length (b_images comparison)) [])
             two_images (3, 8) "imgs/recon.png" (mkModelWorld false [])
             two_images (b_images two_images) eq_refl eq_refl eq_refl);
    [reflexivity|simpl; lia].
Defined.

Lemma reconstructions_shape_mismatch_witness :
  (3, 1, 1) ≠ b_shape two_images
  ∧ reconstructions true (3, 1, 1) forward_id view_id make_grid_first
      two_images (3, 8) "imgs/recon.png" (mkModelWorld false [])
    = (Raise RuntimeError, mkModelWorld true []).
Proof.
  assert ((3, 1, 1) ≠ b_shape two_images) as Hne by (simpl; congruence).
  split; [exact Hne|].
  exact (reconstructions_shape_mismatch true (3, 1, 1) forward_id view_id make_grid_first
           two_images (3, 8) "imgs/recon.png" (mkModelWorld false [])
           two_images (b_images two_images) eq_refl eq_refl Hne).
Defined.
